(** * ingest_data.py: download a CSV file and load it into a table by batches

    A shallow embedding of [src/ingest_data.py].  The script talks to three
    outside parties: an HTTP server ([requests]), the local file system
    ([open], [os.path.exists], [os.remove]) and a database ([pandas.to_sql]
    through an SQLAlchemy engine).  Their state is kept in a [World] that is
    threaded through a small state-and-exception monad; what they answer is
    fixed by an environment [Env].  A Python exception leaves the effects
    done so far in place, so the monad returns the world on both outcomes. *)

From stdpp Require Import gmap strings list fin_maps pretty.
From Stdlib Require Import Ascii ZArith NArith Lia.

Local Open Scope string_scope.

(** ** Exceptions *)

(** The exception classes that can reach the handlers of the script.  The
    last two derive from [BaseException] only: [except Exception] lets them
    through. *)
Inductive Exn : Type :=
  | HTTPError (status : Z)
  | RequestException
  | OSError
  | ArgumentError
  | EmptyDataError
  | ParserError
  | AttributeError (name : string)
  | ValueError
  | DBAPIError
  | StopIteration
  | KeyboardInterrupt
  | SystemExit (code : Z).

#[global] Instance Exn_eq_dec : EqDecision Exn.
Proof. solve_decision. Defined.

Definition is_Exception (e : Exn) : bool :=
  match e with
  | KeyboardInterrupt | SystemExit _ => false
  | _ => true
  end.

Definition is_StopIteration (e : Exn) : bool :=
  match e with
  | StopIteration => true
  | _ => false
  end.

(** [str(e)] in the f-strings of the log messages: a text for each class
    stands for it. *)
Definition exn_str (e : Exn) : string :=
  match e with
  | HTTPError _ => "HTTP error"
  | RequestException => "request failed"
  | OSError => "OS error"
  | ArgumentError => "could not parse URL"
  | EmptyDataError => "No columns to parse from file"
  | ParserError => "Error tokenizing data"
  | AttributeError n => "'DataFrame' object has no attribute '" ++ n ++ "'"
  | ValueError => "unknown datetime string format"
  | DBAPIError => "database error"
  | StopIteration => ""
  | KeyboardInterrupt => ""
  | SystemExit _ => ""
  end.

(** ** Data *)

(** A value of a frame.  A field that is read is kept as its text, whatever
    type pandas gives its column (the number 1 is the text of its field); a
    missing field is [CNaN].  [CInt] is a row label of the default index.
    [pd.to_datetime] produces the last two; a [CStamp] counts nanoseconds. *)
Inductive cell : Type :=
  | CText (s : string)
  | CNaN
  | CInt (n : Z)
  | CStamp (t : Z)
  | CNaT.

#[global] Instance cell_eq_dec : EqDecision cell.
Proof. solve_decision. Defined.

Inductive dtype : Type :=
  | Object
  | Int64
  | Float64
  | Bool
  | Datetime64.

#[global] Instance dtype_eq_dec : EqDecision dtype.
Proof. solve_decision. Defined.

(** A record maps field names to values. *)
Abbreviation Row := (gmap string cell).

(** A [DataFrame]: its columns with their types, its index and its records
    in order.  The index has one or more levels, each with a type, and gives
    a label for each level to every record; [to_sql] stores the labels along
    with the records. *)
Record DataFrame : Type := mkFrame {
  df_columns : list (string * dtype);
  df_index_dtypes : list dtype;
  df_index : list (list cell);
  df_rows : list Row
}.

(** A line of the CSV file, as its fields: the texts between the commas.
    A line of no text has no field, or one empty field. *)
Abbreviation Line := (list string).
Abbreviation Blob := (list Line).

(** A table of the database: its columns, those of the index first, and its
    records. *)
Record Table : Type := mkTable {
  t_columns : list (string * dtype);
  t_rows : list Row
}.

Inductive IfExists : Type :=
  | Replace
  | Append.

#[global] Instance IfExists_eq_dec : EqDecision IfExists.
Proof. solve_decision. Defined.

(** One call of [DataFrame.to_sql]. *)
Record SqlCall : Type := mkCall {
  c_frame : DataFrame;
  c_table : string;
  c_mode : IfExists
}.

(** The history of the database: every call issued, what it raised if it
    failed, and the tables after it. *)
Record SqlEvent : Type := mkEvent {
  ev_call : SqlCall;
  ev_fault : option Exn;
  ev_after : gmap string Table
}.

Inductive Level : Type :=
  | LInfo
  | LError.

#[global] Instance Level_eq_dec : EqDecision Level.
Proof. solve_decision. Defined.

Abbreviation LogRecord := (Level * string)%type.

Record World : Type := mkWorld {
  w_fs : gmap string Blob;
  w_db : gmap string Table;
  w_log : list LogRecord;
  w_sql : list SqlEvent
}.

(** What [requests.get(url, stream=True)] does: it raises, or it returns a
    response with a status whose body arrives in pieces and may break off
    with an exception after the last piece listed. *)
Inductive Response : Type :=
  | Unreachable (e : Exn)
  | Reply (status : Z) (pieces : list Blob) (cut : option Exn).

(** The answers of the outside world: what the server sends for a URL;
    what the file system raises, if anything, when a file of the working
    directory is opened for writing; what [create_engine] raises for a
    connection string; what the call of [to_sql] with a given number raises;
    the type that pandas infers for the fields at a position in the lines of
    a batch; and the date-time that [pd.to_datetime] reads in a text. *)
Record Env : Type := mkEnv {
  net : string → Response;
  open_fault : string → option Exn;
  engine_fault : string → option Exn;
  sql_fault : nat → option Exn;
  infer : list Line → nat → dtype;
  parse_datetime : string → option Z
}.

Record Params : Type := mkParams {
  user : string;
  password : string;
  host : string;
  port : string;
  db : string;
  table_name : string;
  url : string
}.

(** ** The monad *)

Inductive Outcome (A : Type) : Type :=
  | Returned (a : A)
  | Raised (e : Exn).
Arguments Returned {A} a.
Arguments Raised {A} e.

Definition M (A : Type) : Type := World → Outcome A * World.

#[global] Instance M_ret : MRet M := λ A a w, (Returned a, w).

#[global] Instance M_bind : MBind M := λ A B f m w,
  match m w with
  | (Returned a, w') => f a w'
  | (Raised e, w') => (Raised e, w')
  end.

#[global] Instance M_fmap : FMap M := λ A B f m w,
  match m w with
  | (Returned a, w') => (Returned (f a), w')
  | (Raised e, w') => (Raised e, w')
  end.

Definition raise {A} (e : Exn) : M A := λ w, (Raised e, w).

(** [try: m  except Exception as e: h e] *)
Definition try_except {A} (m : M A) (h : Exn → M A) : M A := λ w,
  match m w with
  | (Raised e, w') => if is_Exception e then h e w' else (Raised e, w')
  | r => r
  end.

(** [try: m  except StopIteration: h] *)
Definition try_except_StopIteration {A} (m : M A) (h : M A) : M A := λ w,
  match m w with
  | (Raised e, w') => if is_StopIteration e then h w' else (Raised e, w')
  | r => r
  end.

(** [try: m  finally: fin] *)
Definition try_finally {A} (m : M A) (fin : M unit) : M A := λ w,
  match m w with
  | (r, w') =>
      match fin w' with
      | (Returned _, w'') => (r, w'')
      | (Raised e, w'') => (Raised e, w'')
      end
  end.

(** Lifting of a pure computation that may raise. *)
Definition lift {A} (r : Exn + A) : M A :=
  match r with
  | inl e => raise e
  | inr a => mret a
  end.

(** ** Logging *)

Definition logged (l : Level) (msg : string) (w : World) : World :=
  {| w_fs := w_fs w; w_db := w_db w; w_log := (w_log w ++ [(l, msg)])%list;
     w_sql := w_sql w |}.

Definition logging (l : Level) (msg : string) : M unit := λ w,
  (Returned tt, logged l msg w).

Definition logging_info := logging LInfo.
Definition logging_error := logging LError.

(** What the successive calls of [next] on the reader give: a frame or an
    exception each, and [StopIteration] after the last one. *)
Abbreviation Reader := (list (Exn + DataFrame)).

(** A column of a frame. *)
Abbreviation Series := (dtype * list cell)%type.

Section Ingest.

Variable env : Env.

(** ** The file system *)

Definition set_fs (fs : gmap string Blob) (w : World) : World :=
  {| w_fs := fs; w_db := w_db w; w_log := w_log w; w_sql := w_sql w |}.

(** Why [open(path, "wb")] raises, if it does.  The path is a name in the
    working directory.  The empty name is no file, and [.] and [..] are
    directories; for any other name the file system answers. *)
Definition open_error (path : string) : option Exn :=
  if decide (path ∈ [""; "."; ".."]) then Some OSError
  else open_fault env path.

(** [open(path, "wb")]: the file is created or truncated. *)
Definition open_wb (path : string) : M unit := λ w,
  match open_error path with
  | Some e => (Raised e, w)
  | None => (Returned tt, set_fs (<[path := []]> (w_fs w)) w)
  end.

(** [f.write(chunk)] *)
Definition f_write (path : string) (piece : Blob) : M unit := λ w,
  (Returned tt,
   set_fs (<[path := (default [] (w_fs w !! path) ++ piece)%list]> (w_fs w)) w).

Definition os_path_exists (path : string) : M bool := λ w,
  (Returned (bool_decide (is_Some (w_fs w !! path))), w).

Definition os_remove (path : string) : M unit := λ w,
  (Returned tt, set_fs (delete path (w_fs w)) w).

(** ** pandas *)

(** [chunksize=100000] *)
Definition chunksize : N := 100000.

Definition pickup : string := "tpep_pickup_datetime".
Definition dropoff : string := "tpep_dropoff_datetime".

Fixpoint takeN {A} (n : N) (l : list A) : list A :=
  match l with
  | [] => []
  | x :: l' => if (n =? 0)%N then [] else x :: takeN (N.pred n) l'
  end.

Fixpoint dropN {A} (n : N) (l : list A) : list A :=
  match l with
  | [] => []
  | x :: l' => if (n =? 0)%N then l else dropN (N.pred n) l'
  end.

(** The batches a reader hands out: each [next] takes up to [size] of the
    lines that are left, and there is no batch once none is left.  The fuel
    is the number of lines, more than the number of batches. *)
Fixpoint chunks_fuel {A} (fuel : nat) (size : N) (l : list A) : list (list A) :=
  match fuel with
  | O => []
  | S fuel' =>
      match l with
      | [] => []
      | _ :: _ => takeN size l :: chunks_fuel fuel' size (dropN size l)
      end
  end.

Definition chunks {A} (size : N) (l : list A) : list (list A) :=
  chunks_fuel (length l) size l.

Definition nrows {A} (l : list A) : N := N.of_nat (length l).

(** The texts that [read_csv] takes for a missing value. *)
Definition na_values : list string :=
  [""; "#N/A"; "#N/A N/A"; "#NA"; "-1.#IND"; "-1.#QNAN"; "-NaN"; "-nan";
   "1.#IND"; "1.#QNAN"; "<NA>"; "N/A"; "NA"; "NULL"; "NaN"; "None"; "n/a";
   "nan"; "null"].

(** The value of a field. *)
Definition lex (text : string) : cell :=
  if decide (text ∈ na_values) then CNaN else CText text.

(** The record of a line: short lines are filled up with missing values. *)
Definition line_record (names : list string) (fields : Line) : Row :=
  list_to_map (zip names (lex <$> resize (length names) "" fields)).

(** A line of spaces and tabs only, or of nothing: [read_csv] skips it
    ([skip_blank_lines=True]). *)
Definition is_space (a : ascii) : bool :=
  Ascii.eqb a " "%char || Ascii.eqb a "009"%char.

Fixpoint whitespace (text : string) : bool :=
  match text with
  | EmptyString => true
  | String a text' => is_space a && whitespace text'
  end.

Definition blank (fields : Line) : bool :=
  match fields with
  | [] => true
  | [text] => whitespace text
  | _ => false
  end.

(** The lines of a file that the parser sees; the first is the header. *)
Definition csv_rows (content : Blob) : list Line :=
  filter (λ fields, blank fields = false) content.

(** The columns of a frame under the header [names], typed by position.
    The names are taken as they stand in the header; pandas renames a column
    whose name is empty or is the name of an earlier column. *)
Definition typed_columns (type_at : nat → dtype) (names : list string)
  : list (string * dtype) :=
  imap (λ i n, (n, type_at i)) names.

(** The labels of the records of a batch.  When the first line after the
    header has [levels] fields more than the header, the first [levels]
    fields of every line are its labels; otherwise the records are numbered,
    and the numbers go on from one batch to the next. *)
Definition index_dtypes (levels : nat) (lines : list Line) : list dtype :=
  match levels with
  | O => [Int64]
  | _ => infer env lines <$> seq 0 levels
  end.

Definition index_labels (levels : nat) (start : N) (lines : list Line)
  : list (list cell) :=
  match levels with
  | O => (λ i, [CInt (Z.of_N start + Z.of_nat i)]) <$> seq 0 (length lines)
  | _ => (λ fields, lex <$> resize levels "" fields) <$> lines
  end.

(** The frame of a batch of lines; a line with more fields than the labels
    and the header need stops the tokenizer. *)
Definition frame_of_lines (names : list string) (levels : nat) (start : N)
    (lines : list Line) : Exn + DataFrame :=
  if existsb (λ fields, (levels + length names <? length fields)%nat) lines
  then inl ParserError
  else inr {| df_columns :=
                typed_columns (λ i, infer env lines (levels + i)) names;
              df_index_dtypes := index_dtypes levels lines;
              df_index := index_labels levels start lines;
              df_rows := (λ fields, line_record names (drop levels fields))
                           <$> lines |}.

(** The frame that the reader hands out when the file has a header and
    nothing after it. *)
Definition empty_frame (names : list string) : DataFrame :=
  {| df_columns := (λ n, (n, Object)) <$> names;
     df_index_dtypes := [Int64];
     df_index := [];
     df_rows := [] |}.

(** The frames of successive batches of lines, the first of which starts
    at the record numbered [start]. *)
Fixpoint frames (names : list string) (levels : nat) (start : N)
    (cs : list (list Line)) : Reader :=
  match cs with
  | [] => []
  | ch :: cs' =>
      frame_of_lines names levels start ch
        :: frames names levels (start + nrows ch) cs'
  end.

(** The batches of a file with the header [names]: one of up to 100,000
    lines for each [next]; the first [next] gives a frame of no record when
    there is no line. *)
Definition batches (names : list string) (lines : list Line) : Reader :=
  match lines with
  | [] => [inr (empty_frame names)]
  | first :: _ =>
      frames names (length first - length names) 0 (chunks chunksize lines)
  end.

(** [pd.read_csv(path, iterator=True, chunksize=100000)] *)
Definition read_csv (path : string) : M Reader := λ w,
  match w_fs w !! path with
  | None => (Raised OSError, w)
  | Some content =>
      match csv_rows content with
      | [] => (Raised EmptyDataError, w)
      | header :: lines => (Returned (batches header lines), w)
      end
  end.

(** [next(df_iter)] on what the reader still holds. *)
Definition next (pending : option (Exn + DataFrame)) : M DataFrame :=
  match pending with
  | None => raise StopIteration
  | Some r => lift r
  end.

Fixpoint column_dtype (c : string) (cols : list (string * dtype))
  : option dtype :=
  match cols with
  | [] => None
  | (n, t) :: cols' => if decide (n = c) then Some t else column_dtype c cols'
  end.

Definition field (c : string) (r : Row) : cell := default CNaN (r !! c).

(** [df.c]: the column, or [AttributeError] when the frame has none of that
    name. *)
Definition get_column (c : string) (df : DataFrame) : Exn + Series :=
  match column_dtype c (df_columns df) with
  | None => inl (AttributeError c)
  | Some t => inr (t, field c <$> df_rows df)
  end.

(** [df.c = s] for a column the frame has. *)
Definition set_column (c : string) (s : Series) (df : DataFrame) : DataFrame :=
  {| df_columns :=
       (λ nt : string * dtype, if decide (nt.1 = c) then (nt.1, s.1) else nt)
         <$> df_columns df;
     df_index_dtypes := df_index_dtypes df;
     df_index := df_index df;
     df_rows := zip_with (λ r v, <[c := v]> r) (df_rows df) s.2 |}.

(** [df.head(n=0)] *)
Definition head0 (df : DataFrame) : DataFrame :=
  {| df_columns := df_columns df;
     df_index_dtypes := df_index_dtypes df;
     df_index := [];
     df_rows := [] |}.

(** The date-time of a value: of a text what [pd.to_datetime] reads in it,
    of an integer that many nanoseconds. *)
Definition to_datetime_cell (v : cell) : option cell :=
  match v with
  | CText s => CStamp <$> parse_datetime env s
  | CNaN => Some CNaT
  | CInt n => Some (CStamp n)
  | CStamp t => Some (CStamp t)
  | CNaT => Some CNaT
  end.

(** [pd.to_datetime(s)] *)
Definition to_datetime (s : Series) : Exn + Series :=
  match mapM to_datetime_cell s.2 with
  | Some vs => inr (Datetime64, vs)
  | None => inl ValueError
  end.

(** [df.c = pd.to_datetime(df.c)] *)
Definition assign_datetime (c : string) (df : DataFrame) : Exn + DataFrame :=
  match get_column c df with
  | inl e => inl e
  | inr s =>
      match to_datetime s with
      | inl e => inl e
      | inr s' => inr (set_column c s' df)
      end
  end.

(** ** The database *)

(** The names under which [to_sql] stores the levels of the index, none of
    which has a name of its own: [index] for a single level when no column has
    that name, and [level_0], [level_1], ... otherwise. *)
Definition index_names (levels : nat) (columns : list string) : list string :=
  if decide (levels = 1%nat ∧ "index" ∉ columns) then ["index"]
  else (λ i : nat, "level_" ++ pretty i) <$> seq 0 levels.

Definition index_columns (df : DataFrame) : list string :=
  index_names (length (df_index_dtypes df)) (df_columns df).*1.

(** The columns and the records that [to_sql] writes for a frame: the
    labels come first ([index=True] is the default). *)
Definition label_columns (df : DataFrame) : list (string * dtype) :=
  zip (index_columns df) (df_index_dtypes df).

Definition table_columns (df : DataFrame) : list (string * dtype) :=
  (label_columns df ++ df_columns df)%list.

Definition table_rows (df : DataFrame) : list Row :=
  zip_with (λ labels r, list_to_map (zip (index_columns df) labels) ∪ r)
    (df_index df) (df_rows df).

Definition table_of (df : DataFrame) : Table :=
  {| t_columns := table_columns df; t_rows := table_rows df |}.

(** The effect of a call that succeeds.  [replace] drops the table and
    creates it from the frame; [append] adds the records of the frame to the
    table, which it creates when there is none. *)
Definition sql_apply (c : SqlCall) (tables : gmap string Table)
  : gmap string Table :=
  match c_mode c with
  | Replace => <[c_table c := table_of (c_frame c)]> tables
  | Append =>
      match tables !! c_table c with
      | Some t =>
          <[c_table c := {| t_columns := t_columns t;
                            t_rows := (t_rows t ++ table_rows (c_frame c))%list |}]>
            tables
      | None => <[c_table c := table_of (c_frame c)]> tables
      end
  end.

(** The world after a call that the database carried out, and after one
    that it refused; a refused call changes no table. *)
Definition committed (c : SqlCall) (w : World) : World :=
  let tables := sql_apply c (w_db w) in
  {| w_fs := w_fs w; w_db := tables; w_log := w_log w;
     w_sql := (w_sql w ++ [mkEvent c None tables])%list |}.

Definition refused (c : SqlCall) (e : Exn) (w : World) : World :=
  {| w_fs := w_fs w; w_db := w_db w; w_log := w_log w;
     w_sql := (w_sql w ++ [mkEvent c (Some e) (w_db w)])%list |}.

(** [df.to_sql(name=name, con=engine, if_exists=mode)].  Whether the call
    raises is the word of the environment: the database may refuse it, and
    pandas raises itself when a name of the index is the name of a column
    too.  The call runs in one transaction. *)
Definition to_sql (df : DataFrame) (name : string) (mode : IfExists)
  : M unit := λ w,
  let c := {| c_frame := df; c_table := name; c_mode := mode |} in
  match sql_fault env (length (w_sql w)) with
  | Some e => (Raised e, refused c e w)
  | None => (Returned tt, committed c w)
  end.

(** [create_engine(url)] *)
Definition create_engine (conn : string) : M string :=
  match engine_fault env conn with
  | Some e => raise e
  | None => mret conn
  end.

(** ** The script *)

(** [requests.get(url, stream=True)] *)
Definition requests_get (u : string) : M (Z * list Blob * option Exn) :=
  match net env u with
  | Unreachable e => raise e
  | Reply status pieces cut => mret (status, pieces, cut)
  end.

(** [response.raise_for_status()] *)
Definition raise_for_status (status : Z) : M unit :=
  if ((400 <=? status) && (status <? 600))%Z then raise (HTTPError status)
  else mret tt.

(** [for chunk in response.iter_content(chunk_size=8192): f.write(chunk)] *)
Fixpoint write_content (path : string) (pieces : list Blob)
    (cut : option Exn) : M unit :=
  match pieces with
  | [] => match cut with Some e => raise e | None => mret tt end
  | piece :: pieces' =>
      f_write path piece;; write_content path pieces' cut
  end.

Definition download_file (u output_path : string) : M unit :=
  try_except
    (logging_info ("Downloading file from " ++ u);;
     response ← requests_get u;
     raise_for_status response.1.1;;
     open_wb output_path;;
     write_content output_path response.1.2 response.2;;
     logging_info ("File downloaded successfully to " ++ output_path))
    (λ e, logging_error ("Failed to download file: " ++ exn_str e);;
          raise e).

(** [url.split("/")[-1]] *)
Fixpoint last_segment_from (acc s : string) : string :=
  match s with
  | EmptyString => acc
  | String a s' =>
      if Ascii.eqb a "/"%char then last_segment_from "" s'
      else last_segment_from (acc ++ String a "") s'
  end.

Definition last_segment (s : string) : string := last_segment_from "" s.

(** The body of one turn of [while True], up to the log line.  The elapsed
    time that the message reports is left out: the clock is not modelled. *)
Definition loop_body (name : string) (pending : option (Exn + DataFrame))
  : M unit :=
  df ← next pending;
  df ← lift (assign_datetime pickup df);
  df ← lift (assign_datetime dropoff df);
  to_sql df name Append;;
  logging_info "Inserted another chunk".

(** [while True: try: ... except StopIteration: ...; break].  The flag says
    whether the handler ran, which is when the loop is left. *)
Fixpoint while_true (name : string) (df_iter : Reader) : M unit :=
  stop ← try_except_StopIteration
            (loop_body name (head df_iter);; mret false)
            (logging_info
               "Finished ingesting data into the PostgreSQL database";;
             mret true);
  if stop : bool then mret tt
  else match df_iter with
       | [] => mret tt
       | _ :: df_iter' => while_true name df_iter'
       end.

(** Lines 59 to 87: the first batch, then the others. *)
Definition ingest (name : string) (df_iter : Reader) : M unit :=
  df ← next (head df_iter);
  df ← lift (assign_datetime pickup df);
  df ← lift (assign_datetime dropoff df);
  to_sql (head0 df) name Replace;;
  logging_info ("Table " ++ name ++ " created successfully.");;
  to_sql df name Append;;
  logging_info "First chunk inserted successfully.";;
  while_true name (tail df_iter).

(** Lines 56 to 87: the block under the last [try]. *)
Definition process (csv_name name : string) : M unit :=
  df_iter ← read_csv csv_name;
  ingest name df_iter.

(** Lines 91 to 95: the [finally] block. *)
Definition cleanup (csv_name : string) : M unit :=
  present ← os_path_exists csv_name;
  if present : bool then
    os_remove csv_name;;
    logging_info ("Temporary file " ++ csv_name ++ " deleted.")
  else mret tt.

Definition connection_string (p : Params) : string :=
  "postgresql://" ++ user p ++ ":" ++ password p ++ "@" ++ host p ++ ":"
    ++ port p ++ "/" ++ db p.

Definition main (p : Params) : M unit :=
  let csv_name := last_segment (url p) in
  downloaded ← try_except
                  (download_file (url p) csv_name;; mret true)
                  (λ _, logging_error "Exiting due to download error.";;
                        mret false);
  if negb downloaded then mret tt
  else
    engine ← try_except
                (Some <$> create_engine (connection_string p))
                (λ e, logging_error
                        ("Failed to connect to database: " ++ exn_str e);;
                      mret None);
    match engine with
    | None => mret tt
    | Some _ =>
        try_finally
          (try_except
             (process csv_name (table_name p))
             (λ e, logging_error ("Error processing data: " ++ exn_str e)))
          (cleanup csv_name)
    end.

(** The exit status of the interpreter, as the shell reports it:
    [main(args)] is the last statement of the script.  A [SystemExit] that
    leaves it ends the process with its code, of which the system keeps the
    last eight bits; a [KeyboardInterrupt] ends it by the signal (128 + 2);
    any other exception ends it with status 1. *)
Definition exit_status (r : Outcome unit) : Z :=
  match r with
  | Returned _ => 0
  | Raised KeyboardInterrupt => 130
  | Raised (SystemExit code) => code `mod` 256
  | Raised _ => 1
  end.

End Ingest.

(** * Properties *)

(** ** Notions used by the statements *)

(** Both assignments of a batch, and what becomes of an item of the reader. *)
Definition convert (env : Env) (df : DataFrame) : Exn + DataFrame :=
  match assign_datetime env pickup df with
  | inl e => inl e
  | inr df' => assign_datetime env dropoff df'
  end.

Definition prepared (env : Env) (item : Exn + DataFrame) : Exn + DataFrame :=
  match item with
  | inl e => inl e
  | inr df => convert env df
  end.

(** The calls that a run added to the history of the database. *)
Definition run_events (w0 w' : World) : list SqlEvent :=
  drop (length (w_sql w0)) (w_sql w').

(** The frames of the batch-append calls that were carried out. *)
Definition appended (evs : list SqlEvent) : list DataFrame :=
  (λ ev, c_frame (ev_call ev))
    <$> filter (λ ev, ev_fault ev = None ∧ c_mode (ev_call ev) = Append) evs.

Definition errors (log : list LogRecord) : list LogRecord :=
  filter (λ r, r.1 = LError) log.

(** The download went through and the engine was created: the run reaches
    the block that reads the file. *)
Definition staged (env : Env) (p : Params) (w0 w1 : World) : Prop :=
  download_file env (url p) (last_segment (url p)) w0 = (Returned tt, w1)
  ∧ engine_fault env (connection_string p) = None.

(** Columns retyped as [pd.to_datetime] leaves them. *)
Definition retyped (c : string) (cols : list (string * dtype))
  : list (string * dtype) :=
  (λ nt : string * dtype, if decide (nt.1 = c) then (nt.1, Datetime64) else nt)
    <$> cols.

(** A structured date-time value. *)
Definition datetime_cell (v : cell) : Prop := v = CNaT ∨ ∃ t, v = CStamp t.

(** [df'] is the batch [df] with the two fields converted: the two columns
    are retyped, the labels of the records are as they were, and in every
    record the two fields hold the date-time of what they held while all the
    other fields are as they were. *)
Definition converted (env : Env) (df df' : DataFrame) : Prop :=
  df_columns df' = retyped dropoff (retyped pickup (df_columns df))
  ∧ df_index_dtypes df' = df_index_dtypes df
  ∧ df_index df' = df_index df
  ∧ Forall2
      (λ r r' : Row,
         ∃ v1 v2,
           to_datetime_cell env (field pickup r) = Some v1
           ∧ to_datetime_cell env (field dropoff r) = Some v2
           ∧ datetime_cell v1 ∧ datetime_cell v2
           ∧ r' !! pickup = Some v1 ∧ r' !! dropoff = Some v2
           ∧ ∀ c, c ≠ pickup → c ≠ dropoff → r' !! c = r !! c)
      (df_rows df) (df_rows df').

(** The batch [item] does not get through the loop: reading or converting
    it raises [e], or the database refuses the call numbered [n]. *)
Definition fails_in_loop (env : Env) (n : nat) (item : Exn + DataFrame)
    (e : Exn) : Prop :=
  prepared env item = inl e
  ∨ ∃ df', prepared env item = inr df' ∧ sql_fault env n = Some e.

(** A line that the reader and the conversion accept under the header
    [names]: it has no more fields than the header, and its two date-time
    fields are dates or empty. *)
Definition valid_line (env : Env) (names : list string) (fields : Line)
  : Prop :=
  (length fields ≤ length names)%nat
  ∧ is_Some (to_datetime_cell env (field pickup (line_record names fields)))
  ∧ is_Some (to_datetime_cell env (field dropoff (line_record names fields))).

(** A valid CSV file: the header names the two date-time columns and every
    line is valid. *)
Definition valid_csv (env : Env) (names : list string) (lines : list Line)
  : Prop :=
  pickup ∈ names ∧ dropoff ∈ names ∧ Forall (valid_line env names) lines.

(** The lines of the batches of a file: up to 100,000 each, and one batch
    of no line when the file has none after its header. *)
Definition batch_lines (lines : list Line) : list (list Line) :=
  match lines with
  | [] => [[]]
  | _ :: _ => chunks chunksize lines
  end.

(** The batch of a file that has a header and no line, once converted. *)
Definition header_frame (names : list string) : DataFrame :=
  {| df_columns :=
       retyped dropoff (retyped pickup ((λ n, (n, Object)) <$> names));
     df_index_dtypes := [Int64];
     df_index := [];
     df_rows := [] |}.

(** The batches [goods] get through, giving [goods']: each is read and
    converted, and the database carries out the creation of the table,
    numbered [n0], and the appends after it. *)
Definition batches_pass (env : Env) (n0 : nat) (goods : Reader)
    (goods' : list DataFrame) : Prop :=
  Forall2 (λ item df', prepared env item = inr df') goods goods'
  ∧ (goods ≠ [] →
     ∀ j, (j ≤ length goods)%nat → sql_fault env (n0 + j)%nat = None).

(** The batch [item], the one after [k] others, does not get through:
    reading or converting it raises [e], or the database refuses its call,
    or for the first batch the creation of the table. *)
Definition batch_fails (env : Env) (n0 k : nat) (item : Exn + DataFrame)
    (e : Exn) : Prop :=
  prepared env item = inl e
  ∨ ∃ df',
      prepared env item = inr df'
      ∧ if decide (k = 0%nat)
        then sql_fault env n0 = Some e
             ∨ (sql_fault env n0 = None ∧ sql_fault env (S n0) = Some e)
        else sql_fault env (n0 + k + 1)%nat = Some e.

(** The world when the loop has logged that it is done. *)
Definition finished (w : World) : World :=
  logged LInfo "Finished ingesting data into the PostgreSQL database" w.

(** The world once the table is created from the first batch, and once the
    first batch is appended to it. *)
Definition created (name : string) (df : DataFrame) (w : World) : World :=
  logged LInfo ("Table " ++ name ++ " created successfully.")
    (committed (mkCall (head0 df) name Replace) w).

Definition first_appended (name : string) (df : DataFrame) (w : World)
  : World :=
  logged LInfo "First chunk inserted successfully."
    (committed (mkCall df name Append) (created name df w)).

(** The world after the batches [dfs] were appended one after the other. *)
Fixpoint appends (name : string) (dfs : list DataFrame) (w : World) : World :=
  match dfs with
  | [] => w
  | df :: dfs' =>
      appends name dfs'
        (logged LInfo "Inserted another chunk"
           (committed (mkCall df name Append) w))
  end.

(** An event of the loop: a batch-append call on the table, writing a
    batch of the reader after its conversion. *)
Definition batch_event (env : Env) (name : string) (its : Reader)
    (ev : SqlEvent) : Prop :=
  c_mode (ev_call ev) = Append ∧ c_table (ev_call ev) = name
  ∧ ∃ df, inr df ∈ its ∧ convert env df = inr (c_frame (ev_call ev)).

(** After the event the table has the columns [cols]. *)
Definition keeps_columns (name : string) (cols : list (string * dtype))
    (ev : SqlEvent) : Prop :=
  t_columns <$> (ev_after ev !! name) = Some cols.

(** The block under [try] in [download_file]. *)
Definition fetch (env : Env) (u output_path : string) : M unit :=
  logging_info ("Downloading file from " ++ u);;
  response ← requests_get env u;
  raise_for_status response.1.1;;
  open_wb env output_path;;
  write_content output_path response.1.2 response.2;;
  logging_info ("File downloaded successfully to " ++ output_path).

(** The download fails: the request cannot be completed, the status is a
    client or server error, or the body breaks off. *)
Definition download_fails (env : Env) (u : string) : Prop :=
  match net env u with
  | Unreachable _ => True
  | Reply status _ cut => (400 ≤ status < 600)%Z ∨ is_Some cut
  end.

(** The failure paths of a run, with the exception and the message that the
    entry point logs for it. *)
Inductive failure (env : Env) (p : Params) (w0 : World)
  : Exn → string → Prop :=
  | download_error e w1 :
      download_file env (url p) (last_segment (url p)) w0 = (Raised e, w1) →
      failure env p w0 e "Exiting due to download error."
  | connection_error e w1 :
      download_file env (url p) (last_segment (url p)) w0 = (Returned tt, w1) →
      engine_fault env (connection_string p) = Some e →
      failure env p w0 e ("Failed to connect to database: " ++ exn_str e)
  | processing_error e w1 w2 :
      staged env p w0 w1 →
      process env (last_segment (url p)) (table_name p) w1 = (Raised e, w2) →
      failure env p w0 e ("Error processing data: " ++ exn_str e).

(** ** Sample runs *)

Definition ex_parse (s : string) : option Z :=
  if decide (s = "2021-01-01 00:00:00") then Some 1609459200000000000%Z
  else if decide (s = "2021-01-01 00:10:00") then Some 1609459800000000000%Z
  else None.

(** The first column holds numbers, the others texts. *)
Definition ex_infer (lines : list Line) (i : nat) : dtype :=
  if decide (i = 0%nat) then Int64 else Object.

Definition ex_header : Line := ["VendorID"; pickup; dropoff].

Definition ex_lines : list Line :=
  [["1"; "2021-01-01 00:00:00"; "2021-01-01 00:10:00"];
   ["2"; ""; "2021-01-01 00:10:00"]].

Definition ex_params : Params :=
  {| user := "root"; password := "root"; host := "localhost"; port := "5432";
     db := "ny_taxi"; table_name := "trips";
     url := "https://example.org/data/trips.csv" |}.

(** A table left by an earlier run. *)
Definition ex_old_table : Table :=
  {| t_columns := [("index", Int64); ("VendorID", Int64)];
     t_rows := [{["index" := CInt 0; "VendorID" := CText "9"]}] |}.

Definition ex_world : World :=
  {| w_fs := ∅; w_db := {["trips" := ex_old_table]}; w_log := [];
     w_sql := [] |}.

(** The server sends the file in two pieces and nothing fails. *)
Definition ex_env : Env :=
  {| net := λ _, Reply 200 [[ex_header]; ex_lines] None;
     open_fault := λ _, None;
     engine_fault := λ _, None;
     sql_fault := λ _, None;
     infer := ex_infer;
     parse_datetime := ex_parse |}.

(** The server answers 404. *)
Definition ex_env_404 : Env :=
  {| net := λ _, Reply 404 [] None;
     open_fault := λ _, None;
     engine_fault := λ _, None;
     sql_fault := λ _, None;
     infer := ex_infer;
     parse_datetime := ex_parse |}.

(** The file arrives but the engine cannot be created. *)
Definition ex_env_no_engine : Env :=
  {| net := λ _, Reply 200 [[ex_header]; ex_lines] None;
     open_fault := λ _, None;
     engine_fault := λ _, Some ArgumentError;
     sql_fault := λ _, None;
     infer := ex_infer;
     parse_datetime := ex_parse |}.

(** The file has a header and no line after it. *)
Definition ex_env_header_only : Env :=
  {| net := λ _, Reply 200 [[ex_header]] None;
     open_fault := λ _, None;
     engine_fault := λ _, None;
     sql_fault := λ _, None;
     infer := ex_infer;
     parse_datetime := ex_parse |}.

(** The database refuses the second call, the append of the first batch. *)
Definition ex_env_refused : Env :=
  {| net := λ _, Reply 200 [[ex_header]; ex_lines] None;
     open_fault := λ _, None;
     engine_fault := λ _, None;
     sql_fault := λ n, if decide (n = 1) then Some DBAPIError else None;
     infer := ex_infer;
     parse_datetime := ex_parse |}.

(** The world of the sample runs once the file is downloaded. *)
Definition ex_staged : World :=
  {| w_fs := {["trips.csv" := ex_header :: ex_lines]};
     w_db := {["trips" := ex_old_table]};
     w_log :=
       [(LInfo, "Downloading file from https://example.org/data/trips.csv");
        (LInfo, "File downloaded successfully to trips.csv")];
     w_sql := [] |}.

Definition ex_staged_header_only : World :=
  {| w_fs := {["trips.csv" := [ex_header]]};
     w_db := {["trips" := ex_old_table]};
     w_log :=
       [(LInfo, "Downloading file from https://example.org/data/trips.csv");
        (LInfo, "File downloaded successfully to trips.csv")];
     w_sql := [] |}.

(** The body breaks off after the header. *)
Definition ex_env_cut : Env :=
  {| net := λ _, Reply 200 [[ex_header]] (Some RequestException);
     open_fault := λ _, None;
     engine_fault := λ _, None;
     sql_fault := λ _, None;
     infer := ex_infer;
     parse_datetime := ex_parse |}.

(** The batch of the sample file as it is read, and as it is written. *)
Definition ex_frame : DataFrame :=
  {| df_columns := [("VendorID", Int64); (pickup, Object); (dropoff, Object)];
     df_index_dtypes := [Int64];
     df_index := [[CInt 0]; [CInt 1]];
     df_rows :=
       [{["VendorID" := CText "1"; pickup := CText "2021-01-01 00:00:00";
          dropoff := CText "2021-01-01 00:10:00"]};
        {["VendorID" := CText "2"; pickup := CNaN;
          dropoff := CText "2021-01-01 00:10:00"]}] |}.

Definition ex_frame' : DataFrame :=
  {| df_columns :=
       [("VendorID", Int64); (pickup, Datetime64); (dropoff, Datetime64)];
     df_index_dtypes := [Int64];
     df_index := [[CInt 0]; [CInt 1]];
     df_rows :=
       [{["VendorID" := CText "1"; pickup := CStamp 1609459200000000000;
          dropoff := CStamp 1609459800000000000]};
        {["VendorID" := CText "2"; pickup := CNaT;
          dropoff := CStamp 1609459800000000000]}] |}.

(** A file of two batches: 100,000 lines, then a line with a field too
    many. *)
Definition ex_line : Line := ["1"; "2021-01-01 00:00:00"; "2021-01-01 00:10:00"].
Definition ex_long_line : Line := ["2"; ""; ""; "surplus"].

Definition ex_two_batches : list Line :=
  (replicate (N.to_nat chunksize) ex_line ++ [ex_long_line])%list.

Definition ex_env_two_batches : Env :=
  {| net := λ _, Reply 200 [[ex_header]; ex_two_batches] None;
     open_fault := λ _, None;
     engine_fault := λ _, None;
     sql_fault := λ _, None;
     infer := ex_infer;
     parse_datetime := ex_parse |}.

(** A file of two batches that load: 100,000 lines and one more. *)
Definition ex_full : list Line :=
  (replicate (N.to_nat chunksize) ex_line ++ [ex_line])%list.

Definition ex_env_full : Env :=
  {| net := λ _, Reply 200 [[ex_header]; ex_full] None;
     open_fault := λ _, None;
     engine_fault := λ _, None;
     sql_fault := λ _, None;
     infer := ex_infer;
     parse_datetime := ex_parse |}.

(** The sample file with blank lines in it: empty lines and a line of
    spaces. *)
Definition ex_env_blank : Env :=
  {| net := λ _, Reply 200 [[[""]; ex_header; []]; [["   "]]; ex_lines; [[""]]] None;
     open_fault := λ _, None;
     engine_fault := λ _, None;
     sql_fault := λ _, None;
     infer := ex_infer;
     parse_datetime := ex_parse |}.

(** A file whose lines have a field more than the header: the first field
    of each line is its label. *)
Definition ex_env_labelled : Env :=
  {| net := λ _,
       Reply 200
         [[ex_header];
          [["a"; "1"; "2021-01-01 00:00:00"; "2021-01-01 00:10:00"];
           ["b"; "2"; ""; "2021-01-01 00:10:00"]]] None;
     open_fault := λ _, None;
     engine_fault := λ _, None;
     sql_fault := λ _, None;
     infer := λ _ i, if decide (i = 1%nat) then Int64 else Object;
     parse_datetime := ex_parse |}.

(** The URL ends with the name of a directory. *)
Definition ex_params_dot : Params :=
  {| user := "root"; password := "root"; host := "localhost"; port := "5432";
     db := "ny_taxi"; table_name := "trips";
     url := "https://example.org/data/." |}.

(** ** Notions for the fetcher and for whole runs *)

(** The world after the pieces of a body were written to the file. *)
Fixpoint written (path : string) (pieces : list Blob) (w : World) : World :=
  match pieces with
  | [] => w
  | piece :: pieces' =>
      written path pieces'
        (set_fs (<[path := (default [] (w_fs w !! path) ++ piece)%list]>
                   (w_fs w)) w)
  end.

(** The world once the request is announced in the log, and once the file
    holds the pieces received. *)
Definition requested (u : string) (w : World) : World :=
  logged LInfo ("Downloading file from " ++ u) w.

Definition stored (path : string) (pieces : list Blob) (w : World) : World :=
  set_fs (<[path := concat pieces]> (w_fs w)) w.

(** The status is a client or server error. *)
Definition error_status (status : Z) : Prop := (400 ≤ status < 600)%Z.






(** The shape of the calls of a run: the creation of the table with no
    record first, then batch-appends. *)
Definition create_then_append (evs : list SqlEvent) : Prop :=
  match evs with
  | [] => True
  | ev :: evs' =>
      c_mode (ev_call ev) = Replace
      ∧ df_rows (c_frame (ev_call ev)) = []
      ∧ Forall (λ ev', c_mode (ev_call ev') = Append) evs'
  end.


(** More sample runs. *)

(** The user interrupts the creation of the table. *)
Definition ex_env_interrupt_sql : Env :=
  {| net := λ _, Reply 200 [[ex_header]; ex_lines] None;
     open_fault := λ _, None;
     engine_fault := λ _, None;
     sql_fault := λ n, if decide (n = 0%nat) then Some KeyboardInterrupt else None;
     infer := ex_infer;
     parse_datetime := ex_parse |}.

(** The server sends an empty body. *)
Definition ex_env_empty_body : Env :=
  {| net := λ _, Reply 200 [] None;
     open_fault := λ _, None;
     engine_fault := λ _, None;
     sql_fault := λ _, None;
     infer := ex_infer;
     parse_datetime := ex_parse |}.

(** The file has no pickup column. *)
Definition ex_env_no_pickup : Env :=
  {| net := λ _, Reply 200 [[["VendorID"; dropoff]]; [["1"; "2021-01-01 00:10:00"]]] None;
     open_fault := λ _, None;
     engine_fault := λ _, None;
     sql_fault := λ _, None;
     infer := ex_infer;
     parse_datetime := ex_parse |}.

(** The first line has a pickup time that is no date. *)
Definition ex_env_bad_date : Env :=
  {| net := λ _, Reply 200 [[ex_header]; [["1"; "yesterday"; ""]]] None;
     open_fault := λ _, None;
     engine_fault := λ _, None;
     sql_fault := λ _, None;
     infer := ex_infer;
     parse_datetime := ex_parse |}.

(** The database refuses the first call, the creation of the table. *)
Definition ex_env_refused_create : Env :=
  {| net := λ _, Reply 200 [[ex_header]; ex_lines] None;
     open_fault := λ _, None;
     engine_fault := λ _, None;
     sql_fault := λ n, if decide (n = 0%nat) then Some DBAPIError else None;
     infer := ex_infer;
     parse_datetime := ex_parse |}.

(** The URL names a directory. *)
Definition ex_params_slash : Params :=
  {| user := "root"; password := "root"; host := "localhost"; port := "5432";
     db := "ny_taxi"; table_name := "trips";
     url := "https://example.org/data/" |}.

(** Files and tables that the sample run has no business with. *)
Definition ex_world_busy : World :=
  {| w_fs := {["notes.txt" := [["keep"]]; "trips.csv" := [["stale"]]]};
     w_db := {["trips" := ex_old_table; "zones" := ex_old_table]};
     w_log := [];
     w_sql := [] |}.

(** ** The monad and the steps of the script *)

Section Steps.

Variable env : Env.

Lemma loop_body_eq name item w :
  loop_body env name (Some item) w =
    match prepared env item with
    | inl e => (Raised e, w)
    | inr df' =>
        let c := mkCall df' name Append in
        match sql_fault env (length (w_sql w)) with
        | Some e => (Raised e, refused c e w)
        | None => (Returned tt, logged LInfo "Inserted another chunk" (committed c w))
        end
    end.
Proof.
  unfold loop_body, prepared, convert, next, lift, raise, to_sql,
    logging_info, logging, mbind, M_bind, mret, M_ret.
  destruct item as [e|df]; [done|].
  destruct (assign_datetime env pickup df) as [e|df1]; [done|].
  destruct (assign_datetime env dropoff df1) as [e|df2]; [done|].
  simpl. by destruct (sql_fault env (length (w_sql w))).
Qed.

Lemma while_true_nil name w :
  while_true env name [] w = (Returned tt, finished w).
Proof. reflexivity. Qed.

Lemma while_true_cons name item rest w :
  while_true env name (item :: rest) w =
    match loop_body env name (Some item) w with
    | (Returned _, w1) => while_true env name rest w1
    | (Raised e, w1) =>
        if is_StopIteration e then (Returned tt, finished w1)
        else (Raised e, w1)
    end.
Proof.
  simpl. unfold mbind at 1. unfold M_bind at 1.
  unfold try_except_StopIteration. unfold mbind at 1. unfold M_bind at 1.
  simpl head.
  destruct (loop_body env name (Some item) w) as [[[]|e] w1]; simpl.
  - reflexivity.
  - by destruct (is_StopIteration e).
Qed.

End Steps.

Section Loop.

Variable env : Env.

Lemma appended_nil : appended [] = [].
Proof. reflexivity. Qed.

Lemma appended_cons_ok c tables evs :
  c_mode c = Append →
  appended (mkEvent c None tables :: evs) = c_frame c :: appended evs.
Proof.
  intros Hc. unfold appended. by rewrite filter_cons_True.
Qed.

Lemma appended_cons_fault c e tables evs :
  appended (mkEvent c (Some e) tables :: evs) = appended evs.
Proof.
  unfold appended. rewrite filter_cons_False; [done|]. by intros [? ?].
Qed.

Lemma appended_cons_replace c o tables evs :
  c_mode c = Replace →
  appended (mkEvent c o tables :: evs) = appended evs.
Proof.
  intros Hc. unfold appended. rewrite filter_cons_False; [done|].
  simpl. rewrite Hc. by intros [? ?].
Qed.

Lemma sql_apply_append df name tables t :
  tables !! name = Some t →
  sql_apply (mkCall df name Append) tables =
    <[name := {| t_columns := t_columns t;
                 t_rows := (t_rows t ++ table_rows df)%list |}]> tables.
Proof. intros H. unfold sql_apply. simpl. by rewrite H. Qed.

Lemma batch_event_mono name item its ev :
  batch_event env name its ev → batch_event env name (item :: its) ev.
Proof.
  intros (? & ? & df & ? & ?). repeat split; [done..|].
  exists df. split; [by constructor|done].
Qed.

(** What the loop does to the world, whatever the reader holds and
    whatever fails: it issues batch-append calls only, the table keeps its
    columns, and it ends with the records it had followed by those of the
    calls that were carried out. *)
Lemma while_true_inv name its : ∀ w r w' t,
  while_true env name its w = (r, w') →
  w_db w !! name = Some t →
  ∃ evs,
    w_sql w' = (w_sql w ++ evs)%list
    ∧ w_fs w' = w_fs w
    ∧ Forall (batch_event env name its) evs
    ∧ Forall (keeps_columns name (t_columns t)) evs
    ∧ w_db w' =
        <[name := {| t_columns := t_columns t;
                     t_rows := (t_rows t ++ concat (table_rows <$> appended evs))%list |}]>
          (w_db w).
Proof.
  induction its as [|item rest IH]; intros w r w' t Hrun Ht.
  - rewrite while_true_nil in Hrun. injection Hrun as <- <-.
    exists []. simpl. rewrite !app_nil_r. repeat split; try done.
    symmetry. apply insert_id. by destruct t.
  - rewrite while_true_cons, loop_body_eq in Hrun.
    destruct (prepared env item) as [e|df'] eqn:Hitem.
    { exists []. rewrite app_nil_r.
      assert (w' = w ∨ w' = finished w) as Hw'.
      { destruct (is_StopIteration e); injection Hrun as <- <-; auto. }
      assert (<[name := {| t_columns := t_columns t;
                 t_rows := (t_rows t ++ concat (table_rows <$> appended []))%list |}]>
                (w_db w) = w_db w) as Hid.
      { simpl. rewrite app_nil_r. apply insert_id. by destruct t. }
      destruct Hw' as [-> | ->];
        (split; [done|]); (split; [done|]);
        (split; [apply Forall_nil_2|]); (split; [apply Forall_nil_2|]);
        symmetry; exact Hid. }
    assert (∃ df, item = inr df ∧ convert env df = inr df') as (df & -> & Hdf).
    { destruct item as [e|df]; [done|]. by exists df. }
    simpl in Hrun.
    destruct (sql_fault env (length (w_sql w))) as [e|] eqn:Hfault.
    + exists [mkEvent (mkCall df' name Append) (Some e) (w_db w)].
      assert (w' = refused (mkCall df' name Append) e w
              ∨ w' = finished (refused (mkCall df' name Append) e w)) as Hw'.
      { destruct (is_StopIteration e); injection Hrun as <- <-; auto. }
      rewrite appended_cons_fault, appended_nil. simpl. rewrite app_nil_r.
      assert (<[name := {| t_columns := t_columns t; t_rows := t_rows t |}]>
                (w_db w) = w_db w) as Hid.
      { apply insert_id. by destruct t. }
      assert (batch_event env name (inr df :: rest)
                (mkEvent (mkCall df' name Append) (Some e) (w_db w))) as Hev.
      { repeat split; [done..|]. exists df. split; [by left|done]. }
      assert (keeps_columns name (t_columns t)
                (mkEvent (mkCall df' name Append) (Some e) (w_db w))) as Hcol.
      { unfold keeps_columns. simpl. by rewrite Ht. }
      destruct Hw' as [-> | ->]; simpl;
        (split; [done|]); (split; [done|]);
        (split; [by constructor|]); (split; [by constructor|]);
        by rewrite Hid.
    + set (c := mkCall df' name Append) in *.
      set (t1 := {| t_columns := t_columns t;
                    t_rows := (t_rows t ++ table_rows df')%list |}).
      assert (sql_apply c (w_db w) = <[name := t1]> (w_db w)) as Hdb1
        by (by apply sql_apply_append).
      destruct (IH _ _ _ t1 Hrun) as (evs & Hsql & Hfs & Hevs & Hcols & Hdb).
      { simpl. rewrite Hdb1. apply lookup_insert_eq. }
      exists (mkEvent c None (sql_apply c (w_db w)) :: evs).
      rewrite appended_cons_ok by done.
      split; [|split; [|split; [|split]]].
      * rewrite Hsql. simpl. by rewrite <- app_assoc.
      * by rewrite Hfs.
      * constructor.
        -- repeat split; [done..|]. exists df. split; [by left|done].
        -- eapply Forall_impl; [exact Hevs|]. intros ev.
           apply batch_event_mono.
      * constructor; [|done].
        unfold keeps_columns. simpl. rewrite Hdb1.
        by rewrite lookup_insert_eq.
      * rewrite Hdb. simpl. rewrite Hdb1, insert_insert_eq.
        by rewrite <- app_assoc.
Qed.

End Loop.

Section Script.

Variable env : Env.

(** *** The fetcher *)

Lemma write_content_frame path pieces cut : ∀ w r w',
  write_content path pieces cut w = (r, w') →
  w_db w' = w_db w ∧ w_sql w' = w_sql w.
Proof.
  induction pieces as [|piece pieces IH]; intros w r w' H.
  - destruct cut; injection H as <- <-; done.
  - simpl in H. unfold mbind, M_bind, f_write in H. by apply IH in H.
Qed.

Lemma write_content_cut path pieces e : ∀ w,
  ∃ w', write_content path pieces (Some e) w = (Raised e, w').
Proof.
  induction pieces as [|piece pieces IH]; intros w.
  - by exists w.
  - simpl. unfold mbind, M_bind, f_write. apply IH.
Qed.

Lemma write_content_whole path pieces : ∀ w,
  write_content path pieces None w =
    (Returned tt,
     set_fs (<[path := (default [] (w_fs w !! path) ++ concat pieces)%list]>
               (w_fs w)) w)
  ∨ pieces = [] ∧ write_content path pieces None w = (Returned tt, w).
Proof.
  induction pieces as [|piece pieces IH]; intros w; [by right|left].
  simpl. unfold mbind, M_bind, f_write.
  destruct (IH (set_fs (<[path := (default [] (w_fs w !! path) ++ piece)%list]>
                          (w_fs w)) w)) as [-> | [-> ->]].
  - f_equal. unfold set_fs. simpl. rewrite lookup_insert_eq. simpl.
    by rewrite insert_insert_eq, app_assoc.
  - simpl. by rewrite app_nil_r.
Qed.

Lemma fetch_frame u path w r w' :
  fetch env u path w = (r, w') → w_db w' = w_db w ∧ w_sql w' = w_sql w.
Proof.
  unfold fetch, requests_get, raise_for_status, open_wb, logging_info,
    logging, mbind, M_bind, mret, M_ret, raise.
  destruct (net env u) as [e|status pieces cut];
    [intros H; by injection H as <- <-|].
  simpl. destruct ((400 <=? status)%Z && (status <? 600)%Z);
    [intros H; by injection H as <- <-|].
  destruct (open_error env path); [intros H; by injection H as <- <-|].
  destruct (write_content path pieces cut _) as [[[]|e] w1] eqn:Hw;
    apply write_content_frame in Hw; intros H; by injection H as <- <-.
Qed.

Lemma download_file_eq u path w :
  download_file env u path w =
    match fetch env u path w with
    | (Raised e, w') =>
        if is_Exception e
        then (Raised e,
              logged LError ("Failed to download file: " ++ exn_str e) w')
        else (Raised e, w')
    | r => r
    end.
Proof.
  unfold download_file, try_except. fold (fetch env u path).
  destruct (fetch env u path w) as [[[]|e] w']; [done|].
  by destruct (is_Exception e).
Qed.

Lemma download_file_frame u path w r w' :
  download_file env u path w = (r, w') →
  w_db w' = w_db w ∧ w_sql w' = w_sql w.
Proof.
  rewrite download_file_eq.
  destruct (fetch env u path w) as [[[]|e] w1] eqn:Hf; apply fetch_frame in Hf.
  - intros H. by injection H as <- <-.
  - destruct (is_Exception e); intros H; by injection H as <- <-.
Qed.

(** *** The entry point *)

Lemma main_download_raised p w0 e w1 :
  download_file env (url p) (last_segment (url p)) w0 = (Raised e, w1) →
  main env p w0 =
    if is_Exception e
    then (Returned tt, logged LError "Exiting due to download error." w1)
    else (Raised e, w1).
Proof.
  intros H. unfold main. unfold mbind at 1. unfold M_bind at 1.
  unfold try_except at 1. unfold mbind at 1. unfold M_bind at 1.
  rewrite H. by destruct (is_Exception e).
Qed.

Lemma main_downloaded p w0 w1 :
  download_file env (url p) (last_segment (url p)) w0 = (Returned tt, w1) →
  main env p w0 =
    match engine_fault env (connection_string p) with
    | Some e =>
        if is_Exception e
        then (Returned tt,
              logged LError
                ("Failed to connect to database: " ++ exn_str e) w1)
        else (Raised e, w1)
    | None =>
        try_finally
          (try_except
             (process env (last_segment (url p)) (table_name p))
             (λ e, logging_error ("Error processing data: " ++ exn_str e)))
          (cleanup (last_segment (url p))) w1
    end.
Proof.
  intros H. unfold main. unfold mbind at 1. unfold M_bind at 1.
  unfold try_except at 1. unfold mbind at 1. unfold M_bind at 1.
  rewrite H. simpl. unfold mbind at 1. unfold M_bind at 1.
  unfold try_except at 1. unfold fmap, M_fmap, create_engine.
  destruct (engine_fault env (connection_string p)) as [e|]; simpl.
  - by destruct (is_Exception e).
  - reflexivity.
Qed.

Lemma main_staged p w0 w1 :
  staged env p w0 w1 →
  main env p w0 =
    try_finally
      (try_except
         (process env (last_segment (url p)) (table_name p))
         (λ e, logging_error ("Error processing data: " ++ exn_str e)))
      (cleanup (last_segment (url p))) w1.
Proof. intros [Hd He]. rewrite (main_downloaded _ _ _ Hd). by rewrite He. Qed.

Lemma staged_frame p w0 w1 :
  staged env p w0 w1 → w_db w1 = w_db w0 ∧ w_sql w1 = w_sql w0.
Proof. intros [Hd _]. by apply download_file_frame in Hd. Qed.

(** The [finally] block: afterwards the file is not there, and nothing else
    has changed but the log. *)
Lemma cleanup_eq csv w :
  ∃ w', cleanup csv w = (Returned tt, w')
    ∧ w_fs w' = delete csv (w_fs w)
    ∧ w_db w' = w_db w ∧ w_sql w' = w_sql w
    ∧ ∃ msgs, w_log w' = (w_log w ++ msgs)%list ∧ errors msgs = [].
Proof.
  unfold cleanup, os_path_exists, os_remove, logging_info, logging, mbind,
    M_bind, mret, M_ret.
  destruct (bool_decide (is_Some (w_fs w !! csv))) eqn:Hp; simpl.
  - eexists. split; [done|]. simpl. repeat split; try done.
    by exists [(LInfo, "Temporary file " ++ csv ++ " deleted.")].
  - exists w. split; [done|]. repeat split; try done.
    + symmetry. apply delete_id.
      apply bool_decide_eq_false in Hp. by apply eq_None_not_Some.
    + exists []. by rewrite app_nil_r.
Qed.

End Script.

Section Run.

Variable env : Env.

Lemma main_after_process p w0 w1 r w2 :
  staged env p w0 w1 →
  process env (last_segment (url p)) (table_name p) w1 = (r, w2) →
  ∃ w' msgs,
    main env p w0 =
      (match r with
       | Returned _ => Returned tt
       | Raised e => if is_Exception e then Returned tt else Raised e
       end, w')
    ∧ w_fs w' = delete (last_segment (url p)) (w_fs w2)
    ∧ w_db w' = w_db w2 ∧ w_sql w' = w_sql w2
    ∧ w_log w' =
        (w_log w2
         ++ match r with
            | Returned _ => []
            | Raised e =>
                if is_Exception e
                then [(LError, ("Error processing data: " ++ exn_str e)%string)]
                else []
            end ++ msgs)%list
    ∧ errors msgs = [].
Proof.
  intros Hst Hp. rewrite (main_staged _ _ _ _ Hst).
  unfold try_finally, try_except. rewrite Hp.
  destruct r as [[]|e].
  - destruct (cleanup_eq (last_segment (url p)) w2)
      as (w' & -> & Hfs & Hdb & Hsql & msgs & Hlog & Herr).
    exists w', msgs. by repeat split.
  - destruct (is_Exception e).
    + unfold logging_error, logging.
      destruct (cleanup_eq (last_segment (url p))
                  (logged LError ("Error processing data: " ++ exn_str e) w2))
        as (w' & -> & Hfs & Hdb & Hsql & msgs & Hlog & Herr).
      exists w', msgs. repeat split; try done.
      rewrite Hlog. simpl. by rewrite <- app_assoc.
    + destruct (cleanup_eq (last_segment (url p)) w2)
        as (w' & -> & Hfs & Hdb & Hsql & msgs & Hlog & Herr).
      exists w', msgs. by repeat split.
Qed.

Lemma process_eq csv name w :
  process env csv name w =
    match w_fs w !! csv with
    | None => (Raised OSError, w)
    | Some content =>
        match csv_rows content with
        | [] => (Raised EmptyDataError, w)
        | header :: lines => ingest env name (batches env header lines) w
        end
    end.
Proof.
  unfold process, read_csv. unfold mbind at 1. unfold M_bind at 1.
  destruct (w_fs w !! csv) as [content|]; [|done].
  by destruct (csv_rows content).
Qed.

(** [read_csv] changes nothing; it returns the batches of the lines of the
    file, blank lines apart. *)
Lemma read_csv_world csv w r w' : read_csv env csv w = (r, w') → w' = w.
Proof.
  unfold read_csv. destruct (w_fs w !! csv) as [content|]; [|by intros [= _ <-]].
  destruct (csv_rows content); by intros [= _ <-].
Qed.

Lemma read_csv_file csv w content header lines :
  w_fs w !! csv = Some content →
  csv_rows content = header :: lines →
  read_csv env csv w = (Returned (batches env header lines), w).
Proof. intros Hfile Hrows. unfold read_csv. by rewrite Hfile, Hrows. Qed.

Lemma read_csv_returned csv w its w' :
  read_csv env csv w = (Returned its, w') →
  ∃ content header lines,
    w_fs w !! csv = Some content
    ∧ csv_rows content = header :: lines
    ∧ its = batches env header lines.
Proof.
  unfold read_csv. destruct (w_fs w !! csv) as [content|]; [|done].
  destruct (csv_rows content) as [|header lines] eqn:Hrows; [done|].
  intros [= <- _]. by exists content, header, lines.
Qed.

Lemma read_csv_raised csv w e w' :
  read_csv env csv w = (Raised e, w') →
  is_Exception e = true ∧ is_StopIteration e = false.
Proof.
  unfold read_csv. destruct (w_fs w !! csv) as [content|]; [|by intros [= <- _]].
  destruct (csv_rows content); [by intros [= <- _]|done].
Qed.

Lemma process_reader csv name w its :
  read_csv env csv w = (Returned its, w) →
  process env csv name w = ingest env name its w.
Proof.
  intros H. unfold process. unfold mbind at 1. unfold M_bind at 1.
  by rewrite H.
Qed.

Lemma ingest_eq name its w :
  ingest env name its w =
    match its with
    | [] => (Raised StopIteration, w)
    | item :: rest =>
        match prepared env item with
        | inl e => (Raised e, w)
        | inr df' =>
            match sql_fault env (length (w_sql w)) with
            | Some e => (Raised e, refused (mkCall (head0 df') name Replace) e w)
            | None =>
                let w1 := created name df' w in
                match sql_fault env (S (length (w_sql w))) with
                | Some e => (Raised e, refused (mkCall df' name Append) e w1)
                | None => while_true env name rest (first_appended name df' w)
                end
            end
        end
    end.
Proof.
  unfold ingest, prepared, convert.
  destruct its as [|item rest]; [done|].
  destruct item as [e|df]; [done|].
  unfold mbind at 1. unfold M_bind at 1. cbn [head next lift mret M_ret].
  unfold mbind at 1. unfold M_bind at 1. unfold lift at 1.
  destruct (assign_datetime env pickup df) as [e|df1]; [done|].
  cbn [mret M_ret].
  unfold mbind at 1. unfold M_bind at 1. unfold lift at 1.
  destruct (assign_datetime env dropoff df1) as [e|df2]; [done|].
  cbn [mret M_ret].
  unfold mbind at 1. unfold M_bind at 1. unfold to_sql at 1.
  destruct (sql_fault env (length (w_sql w))) as [e|]; [done|].
  unfold mbind at 1. unfold M_bind at 1. unfold logging_info at 1.
  unfold logging at 1.
  unfold mbind at 1. unfold M_bind at 1. unfold to_sql at 1.
  fold (created name df2 w).
  replace (length (w_sql (created name df2 w))) with (S (length (w_sql w)))
    by (simpl; rewrite length_app, Nat.add_1_r; done).
  destruct (sql_fault env (S (length (w_sql w)))) as [e|]; [done|].
  unfold mbind at 1. unfold M_bind at 1. unfold logging_info at 1.
  unfold logging at 1. reflexivity.
Qed.

End Run.

(** ** Frames and batches *)

Section Frames.

Variable env : Env.

Lemma to_datetime_cell_datetime v v' :
  to_datetime_cell env v = Some v' → datetime_cell v'.
Proof.
  destruct v as [s| |n|t|]; simpl.
  - destruct (parse_datetime env s); intros [= <-]. by right; eexists.
  - intros [= <-]. by left.
  - intros [= <-]. by right; eexists.
  - intros [= <-]. by right; eexists.
  - intros [= <-]. by left.
Qed.

Lemma zip_with_insert c (rows : list Row) vs :
  Forall2 (λ r v, to_datetime_cell env (field c r) = Some v) rows vs →
  Forall2 (λ r r' : Row,
             ∃ v, to_datetime_cell env (field c r) = Some v ∧ r' = <[c := v]> r)
    rows (zip_with (λ r v, <[c := v]> r) rows vs).
Proof.
  induction 1 as [|r v rows vs Hv _ IH]; simpl; constructor; [|done].
  by exists v.
Qed.

(** One assignment: the column is retyped, the labels stay, and each record
    gets the date-time of its field in place of the field. *)
Lemma assign_datetime_spec c df df' :
  assign_datetime env c df = inr df' →
  df_columns df' = retyped c (df_columns df)
  ∧ df_index_dtypes df' = df_index_dtypes df
  ∧ df_index df' = df_index df
  ∧ Forall2 (λ r r' : Row,
               ∃ v, to_datetime_cell env (field c r) = Some v
                    ∧ r' = <[c := v]> r)
      (df_rows df) (df_rows df').
Proof.
  unfold assign_datetime, get_column, to_datetime.
  destruct (column_dtype c (df_columns df)) as [t|]; [|done]. simpl.
  destruct (mapM (to_datetime_cell env) (field c <$> df_rows df))
    as [vs|] eqn:Hvs; [|done].
  intros [= <-]. simpl. repeat split; try done.
  apply mapM_Some, Forall2_fmap_l in Hvs. by apply zip_with_insert.
Qed.

Lemma assign_datetime_exception c df e :
  assign_datetime env c df = inl e →
  is_Exception e = true ∧ is_StopIteration e = false.
Proof.
  unfold assign_datetime, get_column, to_datetime.
  destruct (column_dtype c (df_columns df)) as [t|]; [|by intros [= <-]].
  simpl. destruct (mapM _ _); [done|]. by intros [= <-].
Qed.

Lemma convert_exception df e :
  convert env df = inl e → is_Exception e = true ∧ is_StopIteration e = false.
Proof.
  unfold convert.
  destruct (assign_datetime env pickup df) as [e1|df1] eqn:H1.
  - intros [= <-]. by eapply assign_datetime_exception.
  - apply assign_datetime_exception.
Qed.

Lemma field_insert_ne c c' v (r : Row) :
  c ≠ c' → field c' (<[c := v]> r) = field c' r.
Proof. intros H. unfold field. by rewrite lookup_insert_ne. Qed.

(** Both assignments of a batch. *)
Lemma convert_spec df df' :
  convert env df = inr df' → converted env df df'.
Proof.
  unfold convert, converted.
  destruct (assign_datetime env pickup df) as [e|df1] eqn:H1; [done|].
  intros H2.
  apply assign_datetime_spec in H1 as (Hc1 & Ht1 & Hi1 & Hr1).
  apply assign_datetime_spec in H2 as (Hc2 & Ht2 & Hi2 & Hr2).
  split; [by rewrite Hc2, Hc1|].
  split; [by rewrite Ht2|]. split; [by rewrite Hi2|].
  revert Hr2. generalize (df_rows df'). clear Hc1 Hc2 Ht1 Ht2 Hi1 Hi2.
  induction Hr1 as [|r r1 rows rows1 (v1 & Hv1 & ->) _ IH];
    intros rows2 Hr2; inversion Hr2 as [|? r2 ? rows2' (v2 & Hv2 & ->) Hr2' ]; subst;
    constructor; [|by apply IH].
  rewrite field_insert_ne in Hv2 by done.
  exists v1, v2. repeat split; try done.
  - by eapply to_datetime_cell_datetime.
  - by eapply to_datetime_cell_datetime.
  - rewrite lookup_insert_ne by done. apply lookup_insert_eq.
  - apply lookup_insert_eq.
  - intros c Hp Hd. by rewrite !lookup_insert_ne.
Qed.

Lemma converted_length df df' :
  converted env df df' → length (df_rows df') = length (df_rows df).
Proof. intros (_ & _ & _ & H). symmetry. by eapply Forall2_length. Qed.

(** The conversion keeps the columns of the index apart from their
    names, which depend on the names of the columns only. *)
Lemma retyped_names c cols : (retyped c cols).*1 = cols.*1.
Proof.
  unfold retyped. rewrite <- list_fmap_compose. apply list_fmap_ext.
  intros i [n t] _. simpl. by destruct (decide (n = c)).
Qed.

Lemma converted_index_columns df df' :
  converted env df df' → index_columns df' = index_columns df.
Proof.
  intros (Hc & Ht & _). unfold index_columns.
  by rewrite Hc, Ht, !retyped_names.
Qed.

(** The records that [to_sql] writes for a batch are as many as the
    records of the batch, when each has its labels. *)
Lemma table_rows_length df :
  length (df_index df) = length (df_rows df) →
  length (table_rows df) = length (df_rows df).
Proof. intros H. unfold table_rows. rewrite length_zip_with. lia. Qed.

Lemma index_labels_length levels start lines :
  length (index_labels levels start lines) = length lines.
Proof.
  destruct levels; simpl; rewrite length_fmap; [apply length_seq|done].
Qed.

Lemma frame_of_lines_length names levels start lines df :
  frame_of_lines env names levels start lines = inr df →
  length (df_rows df) = length lines ∧ length (df_index df) = length lines.
Proof.
  unfold frame_of_lines. destruct (existsb _ _); [done|].
  intros [= <-]. simpl. split; [apply length_fmap|].
  apply index_labels_length.
Qed.

Lemma frame_of_lines_exception names levels start lines e :
  frame_of_lines env names levels start lines = inl e →
  is_Exception e = true ∧ is_StopIteration e = false.
Proof.
  unfold frame_of_lines. destruct (existsb _ _); [|done]. by intros [= <-].
Qed.

(** An item of the reader is the frame of a batch of lines. *)
Lemma elem_of_frames names levels item cs : ∀ start,
  item ∈ frames env names levels start cs →
  ∃ start' ch, ch ∈ cs ∧ item = frame_of_lines env names levels start' ch.
Proof.
  induction cs as [|ch cs IH]; intros start Hin; [by inversion Hin|].
  simpl in Hin. apply elem_of_cons in Hin as [->|Hin].
  - exists start, ch. split; [by left|done].
  - destruct (IH _ Hin) as (start' & ch' & Hch & ->).
    exists start', ch'. split; [by right|done].
Qed.

Lemma length_frames names levels cs : ∀ start,
  length (frames env names levels start cs) = length cs.
Proof. induction cs as [|ch cs IH]; intros start; simpl; [done|by rewrite IH]. Qed.

End Frames.

(** ** Batches of lines *)

Section Chunks.

Local Open Scope nat_scope.

Context {A : Type}.
Implicit Types l : list A.

Lemma takeN_take n l : takeN n l = take (N.to_nat n) l.
Proof.
  revert n. induction l as [|x l IH]; intros n; simpl.
  - by destruct (N.to_nat n).
  - destruct (N.eqb_spec n 0) as [->|Hn]; [done|].
    rewrite IH. replace (N.to_nat n) with (S (N.to_nat (N.pred n))) by lia.
    done.
Qed.

Lemma dropN_drop n l : dropN n l = drop (N.to_nat n) l.
Proof.
  revert n. induction l as [|x l IH]; intros n; simpl.
  - by destruct (N.to_nat n).
  - destruct (N.eqb_spec n 0) as [->|Hn]; [done|].
    rewrite IH. replace (N.to_nat n) with (S (N.to_nat (N.pred n))) by lia.
    done.
Qed.

Lemma takeN_dropN n l : (takeN n l ++ dropN n l)%list = l.
Proof. rewrite takeN_take, dropN_drop. apply take_drop. Qed.

Lemma nrows_takeN n l : nrows (takeN n l) = N.min n (nrows l).
Proof. unfold nrows. rewrite takeN_take, length_take. lia. Qed.

Lemma nrows_dropN n l : nrows (dropN n l) = (nrows l - n)%N.
Proof. unfold nrows. rewrite dropN_drop, length_drop. lia. Qed.

Lemma nrows_nil l : nrows l = 0%N ↔ l = [].
Proof. unfold nrows. destruct l; simpl; split; intros; try done; lia. Qed.

(** More fuel than lines changes nothing. *)
Lemma chunks_fuel_enough size : (0 < size)%N → ∀ fuel l,
  length l ≤ fuel → chunks_fuel fuel size l = chunks size l.
Proof.
  intros Hs. unfold chunks.
  assert (∀ n fuel l, length l ≤ n → n ≤ fuel →
            chunks_fuel fuel size l = chunks_fuel n size l) as Hgen.
  { induction n as [|n IH]; intros fuel l Hl Hf.
    - destruct l; [|simpl in Hl; lia]. by destruct fuel.
    - destruct fuel as [|fuel]; [lia|]. simpl.
      destruct l as [|x l]; [done|]. f_equal. apply IH; [|lia].
      rewrite dropN_drop, length_drop. simpl in *. lia. }
  intros fuel l Hl. by apply Hgen.
Qed.

Lemma chunks_nil size : chunks size ([] : list A) = [].
Proof. reflexivity. Qed.

Lemma chunks_cons size l :
  (0 < size)%N → l ≠ [] →
  chunks size l = takeN size l :: chunks size (dropN size l).
Proof.
  intros Hs Hl. destruct l as [|x l]; [done|].
  unfold chunks at 1. cbn [length chunks_fuel]. f_equal.
  apply chunks_fuel_enough; [done|].
  rewrite dropN_drop, length_drop. simpl. lia.
Qed.

(** Induction along the batches. *)
Lemma chunks_ind size (Hs : (0 < size)%N) (P : list A → Prop) :
  P [] →
  (∀ l, l ≠ [] → P (dropN size l) → P l) →
  ∀ l, P l.
Proof.
  intros Hnil Hstep l.
  induction l as [l IH] using (induction_ltof1 _ (@length A)).
  unfold ltof in IH.
  destruct l as [|x l]; [done|].
  apply Hstep; [done|]. apply IH.
  rewrite dropN_drop, length_drop. simpl. lia.
Qed.

Lemma concat_chunks size l : (0 < size)%N → concat (chunks size l) = l.
Proof.
  intros Hs. induction l as [|l Hl IH] using (chunks_ind size Hs); [done|].
  rewrite chunks_cons by done. simpl. rewrite IH. apply takeN_dropN.
Qed.

(** The number of batches: the number of lines over the size, rounded up. *)
Lemma nrows_chunks size l :
  (0 < size)%N →
  nrows (chunks size l) = ((nrows l + size - 1) `div` size)%N.
Proof.
  intros Hs. induction l as [|l Hl IH] using (chunks_ind size Hs).
  - unfold nrows. simpl. symmetry. apply N.div_small. lia.
  - rewrite chunks_cons by done.
    assert (nrows l ≠ 0%N) as Hn by (by rewrite nrows_nil).
    unfold nrows in IH |- *. simpl length.
    rewrite Nat2N.inj_succ, IH. fold (nrows (dropN size l)) (nrows l).
    rewrite nrows_dropN.
    destruct (N.le_gt_cases size (nrows l)) as [Hle|Hgt].
    + replace (nrows l + size - 1)%N with ((nrows l - size + size - 1) + 1 * size)%N
        by lia.
      rewrite N.div_add by lia. lia.
    + replace (nrows l - size)%N with 0%N by lia.
      rewrite (N.div_small (0 + size - 1)) by lia.
      apply (N.div_unique _ _ _ (nrows l - 1)); lia.
Qed.

(** The scenario of the specification: 250,000 lines. *)
Lemma chunks_250000 l :
  nrows l = 250000%N →
  nrows <$> chunks chunksize l = [100000; 100000; 50000]%N.
Proof.
  intros Hn. unfold chunksize.
  assert (∀ k : list A, nrows k ≠ 0%N → k ≠ []) as Hne
    by (intros k Hk ->; done).
  rewrite chunks_cons; [|done|apply Hne; lia].
  rewrite (chunks_cons _ (dropN _ l));
    [|done|apply Hne; rewrite nrows_dropN; lia].
  rewrite (chunks_cons _ (dropN _ (dropN _ l)));
    [|done|apply Hne; rewrite !nrows_dropN; lia].
  assert (dropN 100000 (dropN 100000 (dropN 100000 l)) = []) as ->.
  { apply nrows_nil. rewrite !nrows_dropN. lia. }
  rewrite chunks_nil. simpl. rewrite !nrows_takeN, !nrows_dropN.
  repeat f_equal; lia.
Qed.

End Chunks.

(** ** Runs of the loader *)

Section Loader.

Local Open Scope nat_scope.

Variable env : Env.

Lemma errors_app (l k : list LogRecord) :
  errors (l ++ k) = (errors l ++ errors k)%list.
Proof. apply filter_app. Qed.

Lemma first_appended_db name df' w :
  w_db (first_appended name df' w) =
    <[name := {| t_columns := table_columns df'; t_rows := table_rows df' |}]>
      (w_db w).
Proof.
  unfold first_appended, created. simpl.
  unfold sql_apply at 2. cbn [c_mode c_table c_frame].
  erewrite sql_apply_append by apply lookup_insert_eq.
  by rewrite insert_insert_eq.
Qed.

Lemma first_appended_sql name df' w :
  w_sql (first_appended name df' w) =
    (w_sql w
     ++ [mkEvent (mkCall (head0 df') name Replace) None
           (<[name := {| t_columns := table_columns df'; t_rows := [] |}]> (w_db w));
         mkEvent (mkCall df' name Append) None
           (<[name := {| t_columns := table_columns df'; t_rows := table_rows df' |}]>
              (w_db w))])%list.
Proof.
  pose proof (first_appended_db name df' w) as Hdb.
  unfold first_appended, created in *. simpl in *.
  rewrite <- app_assoc. simpl. by rewrite Hdb.
Qed.

(** The batches that pass are appended one after the other. *)
Lemma while_true_goods name goods goods' rest :
  Forall2 (λ item df', prepared env item = inr df') goods goods' →
  ∀ w,
  (∀ j, j < length goods → sql_fault env (length (w_sql w) + j) = None) →
  while_true env name (goods ++ rest) w =
    while_true env name rest (appends name goods' w).
Proof.
  induction 1 as [|item df' goods goods' Hitem _ IH]; intros w Hok; [done|].
  cbn [app]. rewrite while_true_cons, loop_body_eq, Hitem. cbn zeta.
  assert (sql_fault env (length (w_sql w)) = None) as ->
    by (rewrite <- (Nat.add_0_r (length _)); apply Hok; simpl; lia).
  cbn [appends]. apply IH.
  intros j Hj. simpl. rewrite length_app. simpl.
  replace (length (w_sql w) + 1 + j) with (length (w_sql w) + S j) by lia.
  apply Hok. simpl. lia.
Qed.

Lemma appends_events name dfs : ∀ w,
  ∃ evs,
    w_sql (appends name dfs w) = (w_sql w ++ evs)%list
    ∧ length evs = length dfs
    ∧ appended evs = dfs
    ∧ Forall (λ ev, ev_fault ev = None) evs
    ∧ w_fs (appends name dfs w) = w_fs w
    ∧ w_log (appends name dfs w) =
        (w_log w ++ replicate (length dfs) (LInfo, "Inserted another chunk"))%list.
Proof.
  induction dfs as [|df dfs IH]; intros w.
  - exists []. simpl. by rewrite !app_nil_r.
  - cbn [appends].
    destruct (IH (logged LInfo "Inserted another chunk"
                    (committed (mkCall df name Append) w)))
      as (evs & Hsql & Hlen & Happ & Hok & Hfs & Hlog).
    eexists (_ :: evs). rewrite Hsql, Hfs, Hlog. simpl.
    rewrite <- !app_assoc. simpl. split; [reflexivity|].
    rewrite appended_cons_ok by done. rewrite Hlen, Happ.
    repeat split; try done. by constructor.
Qed.

Lemma appends_db name dfs : ∀ w t,
  w_db w !! name = Some t →
  w_db (appends name dfs w) =
    <[name := {| t_columns := t_columns t;
                 t_rows := (t_rows t ++ concat (table_rows <$> dfs))%list |}]>
      (w_db w).
Proof.
  induction dfs as [|df dfs IH]; intros w t Ht.
  - simpl. rewrite app_nil_r. symmetry. apply insert_id. by destruct t.
  - cbn [appends].
    set (t1 := {| t_columns := t_columns t;
                  t_rows := (t_rows t ++ table_rows df)%list |}).
    assert (sql_apply (mkCall df name Append) (w_db w) = <[name := t1]> (w_db w))
      as Hdb1 by (by apply sql_apply_append).
    rewrite (IH _ t1) by (simpl; rewrite Hdb1; apply lookup_insert_eq).
    simpl. rewrite Hdb1, insert_insert_eq. by rewrite <- app_assoc.
Qed.

Lemma errors_replicate_info n msg :
  errors (replicate n (LInfo, msg)) = [].
Proof. induction n; [done|]. simpl. by rewrite <- IHn. Qed.

(** The first batch and those that pass after it. *)
Lemma ingest_goods name g g' gs gs' rest w :
  prepared env g = inr g' →
  Forall2 (λ item df', prepared env item = inr df') gs gs' →
  (∀ j, j ≤ S (length gs) → sql_fault env (length (w_sql w) + j) = None) →
  ∃ w1 evs,
    ingest env name (g :: gs ++ rest) w = while_true env name rest w1
    ∧ w_sql w1 = (w_sql w ++ evs)%list
    ∧ length evs = S (S (length gs))
    ∧ appended evs = g' :: gs'
    ∧ Forall (λ ev, ev_fault ev = None) evs
    ∧ w_fs w1 = w_fs w
    ∧ w_db w1 =
        <[name := {| t_columns := table_columns g';
                     t_rows := concat (table_rows <$> g' :: gs') |}]> (w_db w)
    ∧ errors (w_log w1) = errors (w_log w).
Proof.
  intros Hg Hgs Hok. rewrite ingest_eq, Hg.
  assert (sql_fault env (length (w_sql w)) = None) as ->
    by (rewrite <- (Nat.add_0_r (length _)); apply Hok; lia).
  assert (sql_fault env (S (length (w_sql w))) = None) as ->
    by (rewrite <- Nat.add_1_r; apply Hok; lia).
  cbn zeta.
  set (w0 := first_appended name g' w).
  rewrite (while_true_goods name gs gs' rest Hgs w0).
  2:{ intros j Hj. unfold w0. rewrite first_appended_sql, length_app. simpl.
      replace (length (w_sql w) + 2 + j) with (length (w_sql w) + (2 + j))
        by lia.
      apply Hok. lia. }
  destruct (appends_events name gs' w0)
    as (evs & Hsql & Hlen & Happ & Hnofault & Hfs & Hlog).
  exists (appends name gs' w0). eexists. split; [reflexivity|].
  split; [|split; [|split; [|split; [|split; [|split]]]]].
  - rewrite Hsql. unfold w0. rewrite first_appended_sql, <- app_assoc.
    reflexivity.
  - simpl. rewrite Hlen. by rewrite (Forall2_length _ _ _ Hgs).
  - cbn [app]. rewrite appended_cons_replace by done.
    rewrite appended_cons_ok by done. by rewrite Happ.
  - cbn [app]. by repeat constructor.
  - by rewrite Hfs.
  - erewrite appends_db
      by (unfold w0; rewrite first_appended_db; apply lookup_insert_eq).
    unfold w0. rewrite first_appended_db. simpl. by rewrite insert_insert_eq.
  - rewrite Hlog, errors_app, errors_replicate_info, app_nil_r.
    unfold w0, first_appended, created. simpl.
    rewrite !errors_app. simpl. by rewrite !app_nil_r.
Qed.

(** A batch of the loop that fails ends the loop; no table changes. *)
Lemma while_true_fails name bad post w e :
  fails_in_loop env (length (w_sql w)) bad e →
  ∃ w' evs,
    while_true env name (bad :: post) w =
      (if is_StopIteration e then Returned tt else Raised e, w')
    ∧ w_sql w' = (w_sql w ++ evs)%list
    ∧ length evs ≤ 1
    ∧ appended evs = []
    ∧ w_fs w' = w_fs w
    ∧ w_db w' = w_db w.
Proof.
  intros [Hbad | (df' & Hbad & Hfault)];
    rewrite while_true_cons, loop_body_eq, Hbad; simpl.
  - destruct (is_StopIteration e); eexists; exists []; rewrite app_nil_r;
      simpl; repeat split; done || lia.
  - rewrite Hfault.
    destruct (is_StopIteration e); eexists; eexists [_];
      (split; [done|]); simpl; rewrite appended_cons_fault; repeat split;
      done || lia.
Qed.

End Loader.

Section Ingestion.

Local Open Scope nat_scope.

Variable env : Env.

(** What [ingest] does to the world, whatever the reader holds and whatever
    fails.  Either no call is issued; or the creation of the table is
    refused; or the table is created with no record from the first batch,
    every later call is a batch-append, the columns stay, and the table ends
    with the records of the calls that were carried out, and no other. *)
Lemma ingest_inv name its w r w' :
  ingest env name its w = (r, w') →
  w_fs w' = w_fs w
  ∧ ((w_sql w' = w_sql w ∧ w_db w' = w_db w
      ∧ (its = [] ∨ ∃ item e, head its = Some item ∧ prepared env item = inl e))
     ∨ (∃ item df' e,
          head its = Some item ∧ prepared env item = inr df'
          ∧ sql_fault env (length (w_sql w)) = Some e
          ∧ w_sql w' =
              (w_sql w
               ++ [mkEvent (mkCall (head0 df') name Replace) (Some e) (w_db w)])%list
          ∧ w_db w' = w_db w)
     ∨ (∃ item df' evs,
          head its = Some item ∧ prepared env item = inr df'
          ∧ sql_fault env (length (w_sql w)) = None
          ∧ w_sql w' =
              (w_sql w
               ++ mkEvent (mkCall (head0 df') name Replace) None
                    (<[name := {| t_columns := table_columns df'; t_rows := [] |}]>
                       (w_db w))
                  :: evs)%list
          ∧ Forall (batch_event env name its) evs
          ∧ Forall (keeps_columns name (table_columns df')) evs
          ∧ w_db w' =
              <[name := {| t_columns := table_columns df';
                           t_rows := concat (table_rows <$> appended evs) |}]>
                (w_db w))).
Proof.
  rewrite ingest_eq. destruct its as [|item rest].
  { intros [= <- <-]. split; [done|]. left. repeat split; try done.
    by left. }
  destruct (prepared env item) as [e|df'] eqn:Hitem.
  { intros [= <- <-]. split; [done|]. left. repeat split; try done.
    right. by exists item, e. }
  assert (∃ df, item = inr df ∧ convert env df = inr df') as (df & -> & Hdf).
  { destruct item as [e|df]; [done|]. by exists df. }
  destruct (sql_fault env (length (w_sql w))) as [e|] eqn:Hcreate.
  { intros [= <- <-]. split; [done|]. right; left.
    exists (inr df), df', e. by repeat split. }
  cbn zeta.
  set (t0 := {| t_columns := table_columns df'; t_rows := [] |}).
  destruct (sql_fault env (S (length (w_sql w)))) as [e|] eqn:Happend.
  - intros [= <- <-]. split; [done|]. right; right.
    exists (inr df), df',
      [mkEvent (mkCall df' name Append) (Some e) (<[name := t0]> (w_db w))].
    rewrite appended_cons_fault, appended_nil.
    repeat split; try done.
    + simpl. by rewrite <- app_assoc.
    + constructor; [|done]. repeat split; [done..|].
      exists df. split; [by left|done].
    + constructor; [|done]. unfold keeps_columns. simpl.
      by rewrite lookup_insert_eq.
  - intros Hrun.
    set (t1 := {| t_columns := table_columns df'; t_rows := table_rows df' |}).
    destruct (while_true_inv env name rest _ _ _ t1 Hrun)
      as (evs & Hsql & Hfs & Hevs & Hcols & Hdb).
    { rewrite first_appended_db. apply lookup_insert_eq. }
    rewrite first_appended_sql in Hsql. rewrite first_appended_db in Hdb.
    split; [by rewrite Hfs|]. right; right.
    exists (inr df), df',
      (mkEvent (mkCall df' name Append) None (<[name := t1]> (w_db w)) :: evs).
    rewrite appended_cons_ok by done.
    repeat split; try done.
    + rewrite Hsql. by rewrite <- !app_assoc.
    + constructor.
      * repeat split; [done..|]. exists df. split; [by left|done].
      * eapply Forall_impl; [exact Hevs|]. intros ev.
        apply batch_event_mono.
    + constructor; [|done]. unfold keeps_columns. simpl.
      by rewrite lookup_insert_eq.
    + rewrite Hdb. by rewrite insert_insert_eq.
Qed.

Lemma run_events_app w0 w' evs :
  w_sql w' = (w_sql w0 ++ evs)%list → run_events w0 w' = evs.
Proof. intros H. unfold run_events. rewrite H. apply drop_app_length. Qed.

(** A run that reaches the file and gets a reader for it: the world after
    [ingest], and the world at the end. *)
Lemma main_on_reader p w0 w1 its :
  staged env p w0 w1 →
  read_csv env (last_segment (url p)) w1 = (Returned its, w1) →
  ∃ r w2 msgs,
    ingest env (table_name p) its w1 = (r, w2)
    ∧ (main env p w0).1 =
        match r with
        | Returned _ => Returned tt
        | Raised e => if is_Exception e then Returned tt else Raised e
        end
    ∧ w_fs (main env p w0).2 !! last_segment (url p) = None
    ∧ w_db (main env p w0).2 = w_db w2
    ∧ w_sql (main env p w0).2 = w_sql w2
    ∧ w_log (main env p w0).2 =
        (w_log w2
         ++ match r with
            | Returned _ => []
            | Raised e =>
                if is_Exception e
                then [(LError, ("Error processing data: " ++ exn_str e)%string)]
                else []
            end ++ msgs)%list
    ∧ errors msgs = [].
Proof.
  intros Hst Hread.
  destruct (ingest env (table_name p) its w1) as [r w2] eqn:Hin.
  destruct (main_after_process env p w0 w1 r w2 Hst)
    as (w' & msgs & Hmain & Hfs & Hdb & Hsql & Hlog & Herr).
  { by rewrite (process_reader env _ _ _ its Hread). }
  exists r, w2, msgs. rewrite Hmain. simpl.
  repeat split; try done. rewrite Hfs. apply lookup_delete_eq.
Qed.

End Ingestion.

(** * The run and its failures *)

Section Failures.

Local Open Scope nat_scope.

Variable env : Env.

Lemma fetch_raises u path w :
  download_fails env u → ∃ e w1, fetch env u path w = (Raised e, w1).
Proof.
  unfold download_fails, fetch, requests_get, raise_for_status, open_wb,
    logging_info, logging, mbind, M_bind, mret, M_ret, raise.
  destruct (net env u) as [e|status pieces cut]; [by eauto|].
  simpl. intros Hfail.
  destruct ((400 <=? status)%Z && (status <? 600)%Z) eqn:Hst; [by eauto|].
  destruct Hfail as [Hfail|[e ->]]; [lia|].
  destruct (open_error env path); [by eauto|].
  destruct (write_content_cut path pieces e
              (set_fs (<[path:=[]]> (w_fs (logged LInfo
                 ("Downloading file from " ++ u) w)))
                 (logged LInfo ("Downloading file from " ++ u) w)))
    as [w1 ->].
  eauto.
Qed.

Lemma download_raises u path w :
  download_fails env u →
  ∃ e w1, download_file env u path w = (Raised e, w1).
Proof.
  intros Hfail. rewrite download_file_eq.
  destruct (fetch_raises u path w Hfail) as (e & w1 & ->).
  destruct (is_Exception e); eauto.
Qed.

Lemma run_events_same w0 w' : w_sql w' = w_sql w0 → run_events w0 w' = [].
Proof. intros H. unfold run_events. rewrite H. apply drop_all. Qed.

(** C5. If the download fails (the request cannot be completed, the status
    is a client or server error, or the body breaks off), [download_file]
    raises and the run ends there: the entry point returns after logging
    the failure, or lets the exception through when it is no [Exception];
    no call to the database is issued and its tables are as before. *)
Theorem download_failure_leaves_database p w0 :
  download_fails env (url p) →
  ∃ e w1,
    download_file env (url p) (last_segment (url p)) w0 = (Raised e, w1)
    ∧ main env p w0 =
        (if is_Exception e
         then (Returned tt, logged LError "Exiting due to download error." w1)
         else (Raised e, w1))
    ∧ run_events w0 (main env p w0).2 = []
    ∧ w_db (main env p w0).2 = w_db w0.
Proof.
  intros Hfail.
  destruct (download_raises (url p) (last_segment (url p)) w0 Hfail)
    as (e & w1 & Hd).
  exists e, w1. split; [done|].
  rewrite (main_download_raised env p w0 e w1 Hd).
  apply download_file_frame in Hd as [Hdb Hsql].
  split; [done|].
  destruct (is_Exception e); simpl; split; try done;
    by apply run_events_same.
Qed.

(** A run whose processing block returns ends with status 0. *)
Lemma success_exit_zero p w0 w1 w2 :
  staged env p w0 w1 →
  process env (last_segment (url p)) (table_name p) w1 = (Returned tt, w2) →
  exit_status (main env p w0).1 = 0%Z.
Proof.
  intros Hst Hp.
  by destruct (main_after_process env p w0 w1 _ w2 Hst Hp)
    as (w' & msgs & -> & _).
Qed.

(** C6. On each failure path (download error, connection error,
    processing error) the entry point catches the exception, logs an error
    and returns: the exit status is 0, the status of a run without
    failure. *)
Theorem failures_exit_zero p w0 e msg :
  failure env p w0 e msg →
  is_Exception e = true →
  (main env p w0).1 = Returned tt
  ∧ exit_status (main env p w0).1 = 0%Z
  ∧ (LError, msg) ∈ w_log (main env p w0).2.
Proof.
  intros Hfail He.
  assert ((main env p w0).1 = Returned tt
          ∧ (LError, msg) ∈ w_log (main env p w0).2) as [Hret Hlog].
  { destruct Hfail as [e w1 Hd | e w1 Hd Heng | e w1 w2 Hst Hp].
    - rewrite (main_download_raised env p w0 e w1 Hd), He. simpl.
      split; [done|]. apply elem_of_app. right. by left.
    - rewrite (main_downloaded env p w0 w1 Hd), Heng, He. simpl.
      split; [done|]. apply elem_of_app. right. by left.
    - destruct (main_after_process env p w0 w1 _ w2 Hst Hp)
        as (w' & msgs & -> & _ & _ & _ & Hlog & _).
      rewrite He in *. simpl. split; [done|]. rewrite Hlog.
      apply elem_of_app. right. by left. }
  by rewrite Hret.
Qed.

End Failures.

(** C2. The staging file is not deleted on every path: when the engine
    cannot be created, the entry point returns before the block whose
    [finally] removes the file, and the downloaded file stays. *)
Theorem connection_error_keeps_staging_file :
  (main ex_env_no_engine ex_params ex_world).1 = Returned tt
  ∧ w_fs (main ex_env_no_engine ex_params ex_world).2 !! "trips.csv"
    = Some (ex_header :: ex_lines).
Proof. by vm_compute. Qed.

Section Schema.

Local Open Scope nat_scope.

Variable env : Env.

(** The events of a run that gets to create the table. *)
Lemma run_creates_table p w0 w1 item rest df1' :
  staged env p w0 w1 →
  read_csv env (last_segment (url p)) w1 = (Returned (item :: rest), w1) →
  prepared env item = inr df1' →
  sql_fault env (length (w_sql w0)) = None →
  ∃ evs,
    run_events w0 (main env p w0).2 =
      mkEvent (mkCall (head0 df1') (table_name p) Replace) None
        (<[table_name p := {| t_columns := table_columns df1'; t_rows := [] |}]>
           (w_db w0))
      :: evs
    ∧ Forall (batch_event env (table_name p) (item :: rest)) evs
    ∧ Forall (keeps_columns (table_name p) (table_columns df1')) evs
    ∧ w_db (main env p w0).2 =
        <[table_name p := {| t_columns := table_columns df1';
                             t_rows := concat (table_rows <$> appended evs) |}]>
          (w_db w0).
Proof.
  intros Hst Hread Hitem Hcreate.
  destruct (main_on_reader env p w0 w1 _ Hst Hread)
    as (r & w2 & msgs & Hin & _ & _ & Hdb & Hsql & _).
  destruct (staged_frame env p w0 w1 Hst) as [Hdb1 Hsql1].
  rewrite Hdb.
  apply ingest_inv in Hin as [_ Hcases]. rewrite Hsql1, Hdb1 in Hcases.
  destruct Hcases as [(_ & _ & [?|(item' & e & [= <-] & He)])
                     |[(item' & df' & e & [= <-] & _ & He & _)
                      |(item' & df' & evs & [= <-] & Hdf' & _ & Hsql2 & Hev
                        & Hcols & Hdb2)]]; try congruence.
  assert (df' = df1') as -> by congruence.
  exists evs. split; [|done].
  apply run_events_app. by rewrite Hsql, Hsql2.
Qed.

(** C3. Once the first batch is read and converted, the first call to the
    database creates the table from its columns with no record, in place of
    any table of that name; every later call is a batch-append; the table
    ends with the records appended in this run and none from before. *)
Theorem first_batch_replaces_table p w0 w1 item rest df1' :
  staged env p w0 w1 →
  read_csv env (last_segment (url p)) w1 = (Returned (item :: rest), w1) →
  prepared env item = inr df1' →
  sql_fault env (length (w_sql w0)) = None →
  ∃ tables evs,
    run_events w0 (main env p w0).2 =
      mkEvent (mkCall (head0 df1') (table_name p) Replace) None tables :: evs
    ∧ df_rows (head0 df1') = []
    ∧ tables !! table_name p =
        Some {| t_columns := table_columns df1'; t_rows := [] |}
    ∧ Forall (λ ev, c_mode (ev_call ev) = Append) evs
    ∧ w_db (main env p w0).2 !! table_name p =
        Some {| t_columns := table_columns df1';
                t_rows := concat (table_rows <$> appended evs) |}.
Proof.
  intros Hst Hread Hitem Hcreate.
  destruct (run_creates_table p w0 w1 item rest df1' Hst Hread Hitem Hcreate)
    as (evs & Hev & Hbatch & _ & Hdb).
  eexists _, evs. split; [exact Hev|]. split; [done|].
  split; [apply lookup_insert_eq|]. split.
  - eapply Forall_impl; [exact Hbatch|]. by intros ev [? _].
  - rewrite Hdb. apply lookup_insert_eq.
Qed.

(** The columns that [to_sql] writes for a converted batch: those of the
    labels, then those of the batch with the two date-time columns
    retyped. *)
Lemma table_columns_converted df df' :
  converted env df df' →
  table_columns df' =
    (label_columns df ++ retyped dropoff (retyped pickup (df_columns df)))%list.
Proof.
  intros Hconv. pose proof (converted_index_columns env df df' Hconv) as Hi.
  destruct Hconv as (Hc & Ht & _).
  unfold table_columns, label_columns. by rewrite Hi, Ht, Hc.
Qed.

End Schema.

Section Outcomes.

Local Open Scope nat_scope.

Variable env : Env.

Lemma appended_app evs1 evs2 :
  appended (evs1 ++ evs2) = (appended evs1 ++ appended evs2)%list.
Proof. unfold appended. by rewrite filter_app, fmap_app. Qed.

(** A reader either hands out batches that all convert, or has a first
    batch that does not. *)
Lemma reader_split (its : Reader) :
  (∃ dfs', Forall2 (λ item df', prepared env item = inr df') its dfs')
  ∨ (∃ goods goods' bad post e,
       its = (goods ++ bad :: post)%list
       ∧ Forall2 (λ item df', prepared env item = inr df') goods goods'
       ∧ prepared env bad = inl e).
Proof.
  induction its as [|item its IH].
  - left. by exists [].
  - destruct (prepared env item) as [e|df'] eqn:Hitem.
    + right. exists [], [], item, its, e. by repeat split.
    + destruct IH as [[dfs' H]|(goods & goods' & bad & post & e & -> & H & Hb)].
      * left. exists (df' :: dfs'). by constructor.
      * right. exists (item :: goods), (df' :: goods'), bad, post, e.
        repeat split; try done. by constructor.
Qed.

(** The world after [ingest] when the batches [goods] get through and the
    next one does not. *)
Lemma ingest_partial name goods goods' bad post e w :
  batches_pass env (length (w_sql w)) goods goods' →
  batch_fails env (length (w_sql w)) (length goods) bad e →
  ∃ w2,
    ingest env name (goods ++ bad :: post) w =
      (if decide (goods = []) then Raised e
       else if is_StopIteration e then Returned tt else Raised e, w2)
    ∧ appended (run_events w w2) = goods'
    ∧ length (run_events w w2) ≤ length goods + 2
    ∧ w_fs w2 = w_fs w
    ∧ (goods = [] → prepared env bad = inl e → w_db w2 = w_db w)
    ∧ ∀ g', head goods' = Some g' →
        w_db w2 =
          <[name := {| t_columns := table_columns g';
                       t_rows := concat (table_rows <$> goods') |}]> (w_db w).
Proof.
  intros [Hgoods Hok] Hbad.
  destruct Hgoods as [|g g' gs gs' Hg Hgs].
  - (* the first batch fails *)
    cbn [app]. rewrite ingest_eq. simpl in Hbad.
    destruct Hbad as [Hbad | (df' & Hbad & Hfault)]; rewrite Hbad.
    { exists w. rewrite run_events_same by done. simpl.
      repeat split; done || lia. }
    destruct Hfault as [Hc | [Hc Ha]]; rewrite Hc; [|rewrite Ha]; cbn zeta.
    + eexists. split; [done|].
      erewrite run_events_app by (simpl; reflexivity).
      rewrite appended_cons_fault. simpl. repeat split; done || lia.
    + eexists. split; [done|].
      erewrite run_events_app
        by (simpl; rewrite <- app_assoc; simpl; reflexivity).
      rewrite appended_cons_replace, appended_cons_fault by done. simpl.
      repeat split; done || lia.
  - (* a later batch fails *)
    specialize (Hok ltac:(done)). simpl in Hok.
    destruct (ingest_goods env name g g' gs gs' (bad :: post) w Hg Hgs)
      as (w1 & evs & Hrun & Hsql & Hlen & Happ & _ & Hfs & Hdb & _).
    { intros j Hj. by apply Hok. }
    cbn [app]. rewrite Hrun.
    assert (fails_in_loop env (length (w_sql w1)) bad e) as Hloop.
    { rewrite Hsql, length_app, Hlen.
      destruct Hbad as [Hbad | (df' & Hbad & Hfault)]; [by left|right].
      exists df'. split; [done|]. simpl in Hfault.
      replace (length (w_sql w) + S (S (length gs)))
        with (length (w_sql w) + S (length gs) + 1) by lia.
      done. }
    destruct (while_true_fails env name bad post w1 e Hloop)
      as (w2 & evs2 & -> & Hsql2 & Hlen2 & Happ2 & Hfs2 & Hdb2).
    exists w2. split; [done|].
    erewrite run_events_app by (rewrite Hsql2, Hsql, <- app_assoc; reflexivity).
    rewrite appended_app, Happ, Happ2, app_nil_r, length_app, Hlen.
    repeat split; try done.
    + simpl. lia.
    + by rewrite Hfs2.
    + intros g'' [= <-]. by rewrite Hdb2.
Qed.

End Outcomes.

Section Loads.

Local Open Scope nat_scope.

Variable env : Env.

(** C4. If a batch fails, the first or a later one, while it is read,
    converted or written, no call is issued for the batches after it, the
    batches appended before it are the contents of the table, and the file
    is deleted. *)
Theorem failed_batch_leaves_partial_load
    p w0 w1 goods goods' bad post e :
  staged env p w0 w1 →
  read_csv env (last_segment (url p)) w1
    = (Returned (goods ++ bad :: post)%list, w1) →
  batches_pass env (length (w_sql w0)) goods goods' →
  batch_fails env (length (w_sql w0)) (length goods) bad e →
  appended (run_events w0 (main env p w0).2) = goods'
  ∧ length (run_events w0 (main env p w0).2) ≤ length goods + 2
  ∧ (∀ g', head goods' = Some g' →
       w_db (main env p w0).2 !! table_name p =
         Some {| t_columns := table_columns g';
                 t_rows := concat (table_rows <$> goods') |})
  ∧ w_fs (main env p w0).2 !! last_segment (url p) = None.
Proof.
  intros Hst Hread Hpass Hfail.
  destruct (main_on_reader env p w0 w1 _ Hst Hread)
    as (r & w2 & msgs & Hin & _ & Hfs & Hdb & Hsql & _).
  destruct (staged_frame env p w0 w1 Hst) as [Hdb1 Hsql1].
  rewrite <- Hsql1 in Hpass, Hfail.
  destruct (ingest_partial env (table_name p) goods goods' bad post e w1
              Hpass Hfail)
    as (w2' & Hin' & Happ & Hlen & _ & _ & Htable).
  rewrite Hin' in Hin. injection Hin as _ <-.
  assert (run_events w0 (main env p w0).2 = run_events w1 w2') as ->.
  { unfold run_events. by rewrite Hsql, Hsql1. }
  repeat split; try done.
  intros g' Hg'. rewrite Hdb, (Htable g' Hg'). apply lookup_insert_eq.
Qed.

(** C9. The loop ends on every reader whose batches get through: when the
    reader is exhausted, [StopIteration] is caught in the loop, which
    returns without an exception for the handler of the processing block,
    after appending every batch in turn; its last log line reports the end
    and no error is logged. *)
Theorem exhausted_reader_ends_loop name goods goods' w :
  Forall2 (λ item df', prepared env item = inr df') goods goods' →
  (∀ j, j < length goods → sql_fault env (length (w_sql w) + j) = None) →
  ∃ w',
    while_true env name goods w = (Returned tt, w')
    ∧ appended (run_events w w') = goods'
    ∧ w_log w' =
        (w_log w
         ++ replicate (length goods) (LInfo, "Inserted another chunk")
         ++ [(LInfo, "Finished ingesting data into the PostgreSQL database")])%list
    ∧ errors (w_log w') = errors (w_log w).
Proof.
  intros Hgoods Hok.
  pose proof (while_true_goods env name goods goods' [] Hgoods w Hok) as Hrun.
  rewrite app_nil_r, while_true_nil in Hrun.
  destruct (appends_events name goods' w)
    as (evs & Hsql & Hlen & Happ & _ & _ & Hlog).
  exists (finished (appends name goods' w)). split; [done|].
  rewrite (run_events_app w _ evs) by done.
  split; [done|]. simpl. rewrite Hlog.
  rewrite <- (Forall2_length _ _ _ Hgoods), <- app_assoc.
  split; [done|].
  rewrite !errors_app, errors_replicate_info. simpl. by rewrite !app_nil_r.
Qed.

(** A run in which every batch gets through. *)
Lemma run_succeeds p w0 w1 g gs g' gs' :
  staged env p w0 w1 →
  read_csv env (last_segment (url p)) w1 = (Returned (g :: gs), w1) →
  prepared env g = inr g' →
  Forall2 (λ item df', prepared env item = inr df') gs gs' →
  (∀ j, j ≤ S (length gs) → sql_fault env (length (w_sql w0) + j) = None) →
  (main env p w0).1 = Returned tt
  ∧ appended (run_events w0 (main env p w0).2) = g' :: gs'
  ∧ length (run_events w0 (main env p w0).2) = S (S (length gs))
  ∧ Forall (λ ev, ev_fault ev = None) (run_events w0 (main env p w0).2)
  ∧ w_db (main env p w0).2 =
      <[table_name p := {| t_columns := table_columns g';
                           t_rows := concat (table_rows <$> g' :: gs') |}]>
        (w_db w0)
  ∧ errors (w_log (main env p w0).2) = errors (w_log w1)
  ∧ w_fs (main env p w0).2 !! last_segment (url p) = None.
Proof.
  intros Hst Hread Hg Hgs Hok.
  destruct (main_on_reader env p w0 w1 _ Hst Hread)
    as (r & w2 & msgs & Hin & Hret & Hfs & Hdb & Hsql & Hlog & Herr).
  destruct (staged_frame env p w0 w1 Hst) as [Hdb1 Hsql1].
  rewrite <- Hsql1 in Hok.
  destruct (ingest_goods env (table_name p) g g' gs gs' [] w1 Hg Hgs Hok)
    as (w3 & evs & Hrun & Hsql3 & Hlen & Happ & Hnofault & Hfs3 & Hdb3 & Herr3).
  rewrite <- (app_nil_r gs), Hrun, while_true_nil in Hin.
  injection Hin as <- <-.
  assert (run_events w0 (main env p w0).2 = evs) as ->.
  { apply run_events_app. rewrite Hsql. simpl. by rewrite Hsql3, Hsql1. }
  rewrite Hret, Hdb, Hlog. simpl. rewrite Hdb3, Hdb1.
  repeat split; try done.
  rewrite !errors_app, Herr. simpl. by rewrite Herr3, !app_nil_r.
Qed.

End Loads.

Section Counts.

Local Open Scope nat_scope.

Variable env : Env.

Lemma prepared_lines_length names levels start ch df' :
  prepared env (frame_of_lines env names levels start ch) = inr df' →
  length (df_rows df') = length ch ∧ length (df_index df') = length ch.
Proof.
  destruct (frame_of_lines env names levels start ch) as [e|df] eqn:Hdf;
    [done|]. simpl.
  intros Hconv. apply convert_spec in Hconv.
  pose proof (converted_length env _ _ Hconv) as Hlen.
  destruct Hconv as (_ & _ & Hi & _).
  apply frame_of_lines_length in Hdf as [Hr Hx]. by rewrite Hlen, Hi.
Qed.

Lemma prepared_lines_exception names levels start ch e :
  prepared env (frame_of_lines env names levels start ch) = inl e →
  is_Exception e = true ∧ is_StopIteration e = false.
Proof.
  destruct (frame_of_lines env names levels start ch) as [e'|df] eqn:Hdf;
    simpl.
  - intros [= <-]. by eapply frame_of_lines_exception.
  - apply convert_exception.
Qed.

(** The batches written are as long as the batches of lines read. *)
Lemma prepared_sizes names levels (cs : list (list Line)) : ∀ start dfs',
  Forall2 (λ item df', prepared env item = inr df')
    (frames env names levels start cs) dfs' →
  (λ df, nrows (df_rows df)) <$> dfs' = nrows <$> cs
  ∧ nrows (concat (table_rows <$> dfs')) = nrows (concat cs).
Proof.
  induction cs as [|ch cs IH]; intros start dfs' H.
  - by inversion H.
  - simpl in H. inversion H as [|? df' ? dfs'' Hch Hcs]; subst.
    destruct (IH _ _ Hcs) as [IH1 IH2].
    apply prepared_lines_length in Hch as [Hr Hx]. unfold nrows in *.
    rewrite !fmap_cons, IH1, Hr. split; [done|].
    cbn [concat]. rewrite !length_app, table_rows_length by congruence.
    rewrite Hr. lia.
Qed.

(** The conversion of the batch of a file with a header only. *)
Lemma convert_empty_frame names df' :
  convert env (empty_frame names) = inr df' → df' = header_frame names.
Proof.
  intros H. apply convert_spec in H as (Hc & Ht & Hi & Hr).
  simpl in *. inversion Hr as [Hrows|]. destruct df'. simpl in *. by subst.
Qed.

Lemma prepared_batches_sizes names lines dfs' :
  Forall2 (λ item df', prepared env item = inr df') (batches env names lines)
    dfs' →
  (λ df, nrows (df_rows df)) <$> dfs' = nrows <$> batch_lines lines
  ∧ nrows (concat (table_rows <$> dfs')) = nrows lines.
Proof.
  destruct lines as [|first lines].
  - simpl. intros H. inversion H as [|? df' ? ? Hdf' Hnil]; subst.
    inversion Hnil; subst. simpl in Hdf'.
    by apply convert_empty_frame in Hdf' as ->.
  - change (batches env names (first :: lines))
      with (frames env names (length first - length names) 0
              (chunks chunksize (first :: lines))).
    change (batch_lines (first :: lines))
      with (chunks chunksize (first :: lines)).
    intros H. apply prepared_sizes in H as [H1 H2]. split; [done|].
    by rewrite H2, concat_chunks.
Qed.

(** The number of batches of a file. *)
Lemma nrows_batch_lines (lines : list Line) :
  nrows (batch_lines lines)
  = N.max 1 ((nrows lines + chunksize - 1) `div` chunksize)%N.
Proof.
  destruct lines as [|first lines]; [done|].
  unfold batch_lines. rewrite nrows_chunks by done.
  assert (0 < (nrows (first :: lines) + chunksize - 1) `div` chunksize)%N;
    [|lia].
  apply N.div_str_pos. unfold nrows, chunksize. simpl length. lia.
Qed.

(** An exception that an item of the reader raises, when it is read or
    converted, is for the handler of the processing block. *)
Lemma prepared_batch_exception names lines item e :
  item ∈ batches env names lines →
  prepared env item = inl e →
  is_Exception e = true ∧ is_StopIteration e = false.
Proof.
  destruct lines as [|first lines]; intros Hin.
  - apply list_elem_of_singleton in Hin as ->. apply convert_exception.
  - change (batches env names (first :: lines))
      with (frames env names (length first - length names) 0
              (chunks chunksize (first :: lines))) in Hin.
    apply elem_of_frames in Hin as (start & ch & _ & ->).
    apply prepared_lines_exception.
Qed.

Lemma failed_run_logs_error p w0 w1 its e w2 :
  staged env p w0 w1 →
  read_csv env (last_segment (url p)) w1 = (Returned its, w1) →
  ingest env (table_name p) its w1 = (Raised e, w2) →
  is_Exception e = true →
  errors (w_log (main env p w0).2) ≠ [].
Proof.
  intros Hst Hread Hin He.
  destruct (main_on_reader env p w0 w1 _ Hst Hread)
    as (r & w2' & msgs & Hin' & _ & _ & _ & _ & Hlog & _).
  rewrite Hin in Hin'. injection Hin' as <- <-.
  rewrite Hlog, He, !errors_app. simpl.
  by destruct (errors (w_log w2)).
Qed.

(** In a run that logs no error, with a database that refuses no call,
    every batch of the reader is read and converted. *)
Lemma clean_run_reader p w0 w1 its :
  staged env p w0 w1 →
  read_csv env (last_segment (url p)) w1 = (Returned its, w1) →
  (∀ k, sql_fault env k = None) →
  errors (w_log (main env p w0).2) = [] →
  ∃ g gs g' gs',
    its = g :: gs
    ∧ prepared env g = inr g'
    ∧ Forall2 (λ item df', prepared env item = inr df') gs gs'.
Proof.
  intros Hst Hread Hsql Herr.
  destruct (reader_split env its)
    as [[dfs' Hall]|(goods & goods' & bad & post & e & Hits & Hgoods & Hbad)].
  - destruct Hall as [|g g' gs gs' Hg Hgs].
    + exfalso.
      apply (failed_run_logs_error p w0 w1 [] StopIteration w1); try done.
    + by exists g, gs, g', gs'.
  - exfalso.
    assert (is_Exception e = true ∧ is_StopIteration e = false) as [He Hs].
    { destruct (read_csv_returned env _ _ _ _ Hread)
        as (content & header & lines & _ & _ & Hb).
      apply (prepared_batch_exception header lines bad); [|done].
      rewrite <- Hb, Hits. apply elem_of_app. right. by left. }
    destruct (ingest_partial env (table_name p) goods goods' bad post e w1)
      as (w2 & Hin & _).
    { split; [done|]. intros _ j _. apply Hsql. }
    { by left. }
    rewrite Hs in Hin. subst its.
    apply (failed_run_logs_error p w0 w1 _ e w2 Hst Hread); try done.
    rewrite Hin. by destruct (decide (goods = [])).
Qed.

End Counts.

(** ** Valid files *)

Section Valid.

Local Open Scope nat_scope.

Variable env : Env.

Lemma column_dtype_names c t (names : list string) :
  c ∈ names → column_dtype c ((λ n, (n, t)) <$> names) = Some t.
Proof.
  induction names as [|n names IH]; intros Hc; [by inversion Hc|].
  simpl. destruct (decide (n = c)) as [->|Hne]; [done|].
  apply IH. by apply elem_of_cons in Hc as [->|Hc].
Qed.

Lemma column_dtype_typed c (names : list string) : ∀ type_at,
  c ∈ names → is_Some (column_dtype c (typed_columns type_at names)).
Proof.
  unfold typed_columns.
  induction names as [|n names IH]; intros type_at Hc; [by inversion Hc|].
  rewrite imap_cons. simpl. destruct (decide (n = c)) as [->|Hne]; [by eexists|].
  apply (IH (type_at ∘ S)). by apply elem_of_cons in Hc as [->|Hc].
Qed.

Lemma column_dtype_retyped c c' cols :
  is_Some (column_dtype c cols) → is_Some (column_dtype c (retyped c' cols)).
Proof.
  induction cols as [|[n t] cols IH]; [done|]. simpl.
  destruct (decide (n = c')) as [->|Hne]; simpl;
    destruct (decide (_ = c)); eauto.
Qed.

Lemma assign_datetime_ok c df :
  is_Some (column_dtype c (df_columns df)) →
  Forall (λ r, is_Some (to_datetime_cell env (field c r))) (df_rows df) →
  ∃ df', assign_datetime env c df = inr df'.
Proof.
  intros [t Ht] Hrows. unfold assign_datetime, get_column, to_datetime.
  rewrite Ht. simpl.
  assert (is_Some (mapM (to_datetime_cell env) (field c <$> df_rows df)))
    as [vs ->]; [|by eauto].
  apply mapM_is_Some. by apply Forall_fmap.
Qed.

Lemma convert_ok df :
  is_Some (column_dtype pickup (df_columns df)) →
  is_Some (column_dtype dropoff (df_columns df)) →
  Forall (λ r, is_Some (to_datetime_cell env (field pickup r))
               ∧ is_Some (to_datetime_cell env (field dropoff r)))
    (df_rows df) →
  ∃ df', convert env df = inr df'.
Proof.
  intros Hp Hd Hrows. unfold convert.
  destruct (assign_datetime_ok pickup df Hp) as [df1 H1].
  { eapply Forall_impl; [exact Hrows|]. by intros r [? _]. }
  rewrite H1. apply assign_datetime_spec in H1 as (Hc1 & _ & _ & Hr1).
  apply assign_datetime_ok.
  - rewrite Hc1. by apply column_dtype_retyped.
  - revert Hrows. clear -Hr1.
    induction Hr1 as [|r r1 rows rows1 (v & _ & ->) _ IH]; intros Hrows;
      [done|].
    apply Forall_cons in Hrows as [[_ Hd] Hrows].
    constructor; [|by apply IH]. by rewrite field_insert_ne.
Qed.

(** A batch of valid lines is read and converted. *)
Lemma prepared_valid names start (lines : list Line) :
  pickup ∈ names → dropoff ∈ names →
  Forall (valid_line env names) lines →
  ∃ df', prepared env (frame_of_lines env names 0 start lines) = inr df'.
Proof.
  intros Hp Hd Hlines. unfold frame_of_lines.
  assert (existsb (λ fields, 0 + length names <? length fields) lines = false)
    as ->.
  { induction Hlines as [|fields lines [Hlen _] _ IH]; [done|].
    cbn [existsb]. rewrite IH, orb_false_r. apply Nat.ltb_ge. exact Hlen. }
  simpl. apply convert_ok; simpl.
  - by apply column_dtype_typed.
  - by apply column_dtype_typed.
  - apply Forall_fmap. eapply Forall_impl; [exact Hlines|].
    by intros fields (_ & ? & ?).
Qed.

Lemma Forall_concat_chunks {A} (P : A → Prop) size (l : list A) :
  (0 < size)%N → Forall P l → Forall (Forall P) (chunks size l).
Proof.
  intros Hs. induction l as [|l Hl IH] using (chunks_ind size Hs);
    intros Hall; [constructor|].
  rewrite chunks_cons by done. rewrite <- (takeN_dropN size l) in Hall.
  apply Forall_app in Hall as [Ht Hd]. constructor; [done|by apply IH].
Qed.

(** The batch of a file with a header only is converted when the header
    names the two date-time columns. *)
Lemma prepared_empty_frame names :
  pickup ∈ names → dropoff ∈ names →
  prepared env (inr (empty_frame names)) = inr (header_frame names).
Proof.
  intros Hp Hd.
  destruct (convert_ok (empty_frame names)) as [df' Hdf']; simpl.
  - rewrite column_dtype_names by done. by eexists.
  - rewrite column_dtype_names by done. by eexists.
  - constructor.
  - rewrite Hdf'. f_equal. by eapply convert_empty_frame.
Qed.

(** The batches of a valid file are numbered from the first line on. *)
Lemma valid_batches names first lines :
  valid_csv env names (first :: lines) →
  batches env names (first :: lines) =
    frames env names 0 0 (chunks chunksize (first :: lines)).
Proof.
  intros (_ & _ & Hlines). apply Forall_cons in Hlines as [[Hlen _] _].
  unfold batches. by replace (length first - length names) with 0 by lia.
Qed.

(** Every batch of a valid file is read and converted. *)
Lemma valid_csv_prepared names lines :
  valid_csv env names lines →
  ∃ g' gs',
    Forall2 (λ item df', prepared env item = inr df') (batches env names lines)
      (g' :: gs').
Proof.
  intros Hvalid. destruct lines as [|first lines].
  - destruct Hvalid as (Hp & Hd & _). exists (header_frame names), [].
    constructor; [|constructor]. by apply prepared_empty_frame.
  - rewrite valid_batches by done. destruct Hvalid as (Hp & Hd & Hlines).
    apply (Forall_concat_chunks _ chunksize) in Hlines; [|done].
    rewrite chunks_cons in * by done.
    assert (∀ cs start, Forall (Forall (valid_line env names)) cs →
              ∃ dfs', Forall2 (λ item df', prepared env item = inr df')
                        (frames env names 0 start cs) dfs') as Hall.
    { induction cs as [|ch cs IH]; intros start Hcs; [by exists []|].
      apply Forall_cons in Hcs as [Hch Hcs].
      destruct (prepared_valid names start ch Hp Hd Hch) as [df' Hdf'].
      destruct (IH (start + nrows ch)%N Hcs) as [dfs' Hdfs'].
      exists (df' :: dfs'). by constructor. }
    destruct (Hall _ 0%N Hlines) as [dfs' Hdfs'].
    inversion Hdfs' as [|? g' ? gs' ? ?]; subst.
    exists g', gs'. by constructor.
Qed.

(** A valid file and a database that refuses no call: the run returns and
    logs no error. *)
Lemma valid_run_logs_no_error p w0 w1 content header lines :
  staged env p w0 w1 →
  w_fs w1 !! last_segment (url p) = Some content →
  csv_rows content = header :: lines →
  valid_csv env header lines →
  (∀ k, sql_fault env k = None) →
  (main env p w0).1 = Returned tt
  ∧ errors (w_log (main env p w0).2) = errors (w_log w1).
Proof.
  intros Hst Hfile Hrows Hvalid Hsql.
  destruct (valid_csv_prepared header lines Hvalid) as (g' & gs' & Hall).
  pose proof (read_csv_file env _ _ _ _ _ Hfile Hrows) as Hread.
  remember (batches env header lines) as its eqn:Hits.
  inversion Hall as [|g ? gs ? Hg Hgs]; subst its; subst.
  match goal with H : _ :: _ = batches _ _ _ |- _ => rewrite <- H in Hread end.
  destruct (run_succeeds env p w0 w1 g gs g' gs') as
    (Hret & _ & _ & _ & _ & Herr & _); done.
Qed.

End Valid.

Section Download.

Variable env : Env.

(** A download that goes through leaves the body in the file. *)
Lemma download_ok u path w status pieces :
  net env u = Reply status pieces None →
  ¬ (400 ≤ status < 600)%Z →
  open_error env path = None →
  download_file env u path w =
    (Returned tt,
     logged LInfo ("File downloaded successfully to " ++ path)
       (set_fs (<[path := concat pieces]> (w_fs w))
          (logged LInfo ("Downloading file from " ++ u) w))).
Proof.
  intros Hnet Hst Hpath. rewrite download_file_eq.
  unfold fetch, requests_get, raise_for_status, open_wb, logging_info,
    logging, mbind, M_bind, mret, M_ret, raise.
  rewrite Hnet. simpl.
  destruct ((400 <=? status)%Z && (status <? 600)%Z) eqn:Hs; [lia|].
  rewrite Hpath.
  match goal with
  | |- context [write_content path pieces None ?w1] =>
      destruct (write_content_whole path pieces w1) as [-> | [-> ->]]
  end.
  - simpl. rewrite lookup_insert_eq. simpl. by rewrite insert_insert_eq.
  - reflexivity.
Qed.

End Download.

(** * What a run writes *)

Section Written.

Local Open Scope nat_scope.

Variable env : Env.

(** The frames that the append calls of the loop write are the conversions
    of the first batches of the reader, in order. *)
Lemma while_true_written name its : ∀ w r w',
  while_true env name its w = (r, w') →
  ∃ evs dfs dfs' rest,
    w_sql w' = (w_sql w ++ evs)%list
    ∧ its = ((inr <$> dfs) ++ rest)%list
    ∧ Forall2 (λ df df', convert env df = inr df') dfs dfs'
    ∧ appended evs = dfs'.
Proof.
  induction its as [|item its IH]; intros w r w' Hrun.
  - rewrite while_true_nil in Hrun. injection Hrun as <- <-.
    exists [], [], [], []. simpl. by rewrite app_nil_r.
  - rewrite while_true_cons, loop_body_eq in Hrun.
    destruct (prepared env item) as [e|df'] eqn:Hitem.
    { exists [], [], [], (item :: its).
      destruct (is_StopIteration e); injection Hrun as <- <-; simpl;
        by rewrite app_nil_r. }
    destruct item as [e|df]; [done|]. simpl in Hitem, Hrun.
    destruct (sql_fault env (length (w_sql w))) as [e|].
    + exists [mkEvent (mkCall df' name Append) (Some e) (w_db w)], [], [],
        (inr df :: its).
      rewrite appended_cons_fault.
      destruct (is_StopIteration e); injection Hrun as <- <-; by simpl.
    + apply IH in Hrun as (evs & dfs & dfs' & rest & Hsql & -> & Hall & Happ).
      eexists (_ :: evs), (df :: dfs), (df' :: dfs'), rest.
      split; [rewrite Hsql; simpl; by rewrite <- app_assoc|].
      split; [done|]. split; [by constructor|].
      rewrite appended_cons_ok by done. by rewrite Happ.
Qed.

Lemma ingest_written name its w r w' :
  ingest env name its w = (r, w') →
  ∃ evs dfs dfs' rest,
    w_sql w' = (w_sql w ++ evs)%list
    ∧ its = ((inr <$> dfs) ++ rest)%list
    ∧ Forall2 (λ df df', convert env df = inr df') dfs dfs'
    ∧ appended evs = dfs'.
Proof.
  rewrite ingest_eq. destruct its as [|item its].
  { intros [= <- <-]. exists [], [], [], []. by rewrite app_nil_r. }
  destruct (prepared env item) as [e|df'] eqn:Hitem.
  { intros [= <- <-]. exists [], [], [], (item :: its). by rewrite app_nil_r. }
  destruct item as [e|df]; [done|]. simpl in Hitem.
  destruct (sql_fault env (length (w_sql w))) as [e|].
  { intros [= <- <-]. eexists [_], [], [], (inr df :: its).
    split; [done|]. by rewrite appended_cons_fault. }
  cbn zeta. destruct (sql_fault env (S (length (w_sql w)))) as [e|].
  { intros [= <- <-]. eexists [_; _], [], [], (inr df :: its).
    split; [simpl; by rewrite <- app_assoc|].
    by rewrite appended_cons_replace, appended_cons_fault. }
  intros Hrun.
  apply while_true_written in Hrun
    as (evs & dfs & dfs' & rest & Hsql & -> & Hall & Happ).
  rewrite first_appended_sql in Hsql.
  eexists (_ :: _ :: evs), (df :: dfs), (df' :: dfs'), rest.
  split; [rewrite Hsql; by rewrite <- app_assoc|].
  split; [done|]. split; [by constructor|].
  rewrite appended_cons_replace, appended_cons_ok by done. by rewrite Happ.
Qed.

(** Batches that are read and converted are frames. *)
Lemma prepared_frames (its : Reader) dfs' :
  Forall2 (λ item df', prepared env item = inr df') its dfs' →
  ∃ dfs, its = inr <$> dfs ∧ Forall2 (converted env) dfs dfs'.
Proof.
  induction 1 as [|item df' its dfs' Hitem _ (dfs & -> & IH)]; [by exists []|].
  destruct item as [e|df]; [done|]. simpl in Hitem.
  exists (df :: dfs). split; [done|]. constructor; [|done].
  by apply convert_spec.
Qed.

(** The index of a frame of the reader has a column in the table. *)
Lemma length_index_names levels columns :
  length (index_names levels columns) = levels.
Proof.
  unfold index_names. destruct (decide _) as [[-> _]|_]; [done|].
  by rewrite length_fmap, length_seq.
Qed.

Lemma batch_label_columns names lines df :
  inr df ∈ batches env names lines → label_columns df ≠ [].
Proof.
  intros Hin.
  assert (df_index_dtypes df ≠ []) as Hne.
  { destruct lines as [|first lines].
    - apply list_elem_of_singleton in Hin as [= ->]. done.
    - change (batches env names (first :: lines))
        with (frames env names (length first - length names) 0
                (chunks chunksize (first :: lines))) in Hin.
      apply elem_of_frames in Hin as (start & ch & _ & Hdf).
      unfold frame_of_lines in Hdf. destruct (existsb _ _); [done|].
      injection Hdf as ->. simpl. by destruct (length first - length names). }
  unfold label_columns, index_columns. intros Hnil.
  apply (f_equal length) in Hnil.
  rewrite length_zip, length_index_names in Hnil.
  destruct (df_index_dtypes df); [done|simpl in Hnil; lia].
Qed.

(** C1. A run that logs no error and in which the database refuses no
    call returns, and the table ends with as many records as the file has
    lines after the header, blank lines apart.  They are written by one
    batch-append call for each 100,000 lines or part thereof, each call
    writing its batch of lines, and by one call that writes no record when
    there is no line; with 250,000 lines these are three calls of 100,000,
    100,000 and 50,000 records. *)
Theorem every_line_loaded p w0 w1 content header lines :
  staged env p w0 w1 →
  w_fs w1 !! last_segment (url p) = Some content →
  csv_rows content = header :: lines →
  (∀ k, sql_fault env k = None) →
  errors (w_log (main env p w0).2) = [] →
  let evs := run_events w0 (main env p w0).2 in
  let sizes := (λ df, nrows (df_rows df)) <$> appended evs in
  (main env p w0).1 = Returned tt
  ∧ (∃ t, w_db (main env p w0).2 !! table_name p = Some t
          ∧ nrows (t_rows t) = nrows lines)
  ∧ Forall (λ ev, ev_fault ev = None) evs
  ∧ sizes = nrows <$> batch_lines lines
  ∧ nrows sizes = N.max 1 ((nrows lines + chunksize - 1) `div` chunksize)%N
  ∧ (nrows lines = 250000%N → sizes = [100000; 100000; 50000]%N).
Proof.
  intros Hst Hfile Hrows Hsql Herr evs sizes.
  pose proof (read_csv_file env _ _ _ _ _ Hfile Hrows) as Hread.
  destruct (clean_run_reader env p w0 w1 _ Hst Hread Hsql Herr)
    as (g & gs & g' & gs' & Hits & Hg & Hgs).
  rewrite Hits in Hread.
  destruct (run_succeeds env p w0 w1 g gs g' gs' Hst Hread Hg Hgs)
    as (Hret & Happ & _ & Hnofault & Hdb & _); [by intros; apply Hsql|].
  destruct (prepared_batches_sizes env header lines (g' :: gs'))
    as [Hsizes Hcount]; [rewrite Hits; by constructor|].
  assert (sizes = nrows <$> batch_lines lines) as Hs.
  { unfold sizes, evs. by rewrite Happ. }
  split; [done|]. split; [|split; [done|split; [done|split]]].
  - eexists. split; [rewrite Hdb; apply lookup_insert_eq|].
    cbn [t_rows]. exact Hcount.
  - rewrite Hs. unfold nrows at 1. rewrite length_fmap.
    apply nrows_batch_lines.
  - intros Hn. rewrite Hs.
    destruct lines as [|first lines]; [done|]. by apply chunks_250000.
Qed.

(** C7. Once the table is created from the first batch, its columns are
    those under which the labels of the records are stored, of which there
    is at least one, followed by those of the first batch with the two
    date-time columns retyped; they are the same after every call of the run
    and at its end, and every call after the creation is a batch-append. *)
Theorem schema_fixed_by_first_batch p w0 w1 df1 rest df1' :
  staged env p w0 w1 →
  read_csv env (last_segment (url p)) w1 = (Returned (inr df1 :: rest), w1) →
  convert env df1 = inr df1' →
  sql_fault env (length (w_sql w0)) = None →
  let cols :=
    (label_columns df1 ++ retyped dropoff (retyped pickup (df_columns df1)))%list
  in
  label_columns df1 ≠ []
  ∧ Forall (keeps_columns (table_name p) cols) (run_events w0 (main env p w0).2)
  ∧ Forall (λ ev, c_mode (ev_call ev) = Append)
      (tail (run_events w0 (main env p w0).2))
  ∧ t_columns <$> (w_db (main env p w0).2 !! table_name p) = Some cols.
Proof.
  intros Hst Hread Hconv Hcreate cols.
  destruct (run_creates_table env p w0 w1 (inr df1) rest df1'
              Hst Hread Hconv Hcreate)
    as (evs & Hev & Hbatch & Hcols & Hdb).
  assert (table_columns df1' = cols) as Hdf.
  { apply (table_columns_converted env). by apply convert_spec. }
  split.
  { destruct (read_csv_returned env _ _ _ _ Hread)
      as (content & header & lines & _ & _ & Hb).
    apply (batch_label_columns header lines). rewrite <- Hb. by left. }
  rewrite Hev, Hdb, <- Hdf. simpl. split; [|split].
  - constructor; [|done]. unfold keeps_columns. simpl.
    by rewrite lookup_insert_eq.
  - eapply Forall_impl; [exact Hbatch|]. by intros ev [? _].
  - by rewrite lookup_insert_eq.
Qed.

(** C8. The batches that a run writes are the first batches of the reader,
    in their order, each with the two date-time fields of every record
    converted and with every other field, and the labels, as they were
    read; in a run that logs no error, with a database that refuses no
    call, these are all the batches of the reader. *)
Theorem only_datetime_fields_converted p w0 w1 its :
  staged env p w0 w1 →
  read_csv env (last_segment (url p)) w1 = (Returned its, w1) →
  let written := appended (run_events w0 (main env p w0).2) in
  (∃ dfs rest,
     its = ((inr <$> dfs) ++ rest)%list ∧ Forall2 (converted env) dfs written)
  ∧ ((∀ k, sql_fault env k = None) →
     errors (w_log (main env p w0).2) = [] →
     ∃ dfs, its = inr <$> dfs ∧ Forall2 (converted env) dfs written).
Proof.
  intros Hst Hread written.
  destruct (staged_frame env p w0 w1 Hst) as [Hdb1 Hsql1].
  split.
  - destruct (main_on_reader env p w0 w1 _ Hst Hread)
      as (r & w2 & msgs & Hin & _ & _ & _ & Hsql & _).
    apply ingest_written in Hin
      as (evs & dfs & dfs' & rest & Hsql2 & -> & Hall & Happ).
    exists dfs, rest. split; [done|].
    unfold written. rewrite (run_events_app w0 _ evs) by congruence.
    rewrite Happ. eapply Forall2_impl; [exact Hall|].
    intros df df'. apply convert_spec.
  - intros Hok Herr.
    destruct (clean_run_reader env p w0 w1 _ Hst Hread Hok Herr)
      as (g & gs & g' & gs' & -> & Hg & Hgs).
    destruct (run_succeeds env p w0 w1 g gs g' gs' Hst Hread Hg Hgs)
      as (_ & Happ & _); [by intros; apply Hok|].
    unfold written. rewrite Happ.
    apply prepared_frames. by constructor.
Qed.

(** C10. If the file holds a header that names the two date-time columns and
    no line after it, the first [next] raises nothing: the reader hands out
    one batch, of no record, and the run takes no error path.  The table is
    created from that batch, converted, in place of any table of that name;
    one batch-append call writes no record and the loop ends at once; no
    error is logged and the file is deleted. *)
Theorem header_only_creates_empty_table p w0 w1 content header :
  staged env p w0 w1 →
  w_fs w1 !! last_segment (url p) = Some content →
  csv_rows content = [header] →
  pickup ∈ header → dropoff ∈ header →
  sql_fault env (length (w_sql w0)) = None →
  sql_fault env (S (length (w_sql w0))) = None →
  ∃ df df',
    read_csv env (last_segment (url p)) w1 = (Returned [inr df], w1)
    ∧ df_rows df = []
    ∧ converted env df df'
    ∧ (main env p w0).1 = Returned tt
    ∧ errors (w_log (main env p w0).2) = errors (w_log w1)
    ∧ (let t := {| t_columns := table_columns df'; t_rows := [] |} in
       run_events w0 (main env p w0).2 =
         [mkEvent (mkCall (head0 df') (table_name p) Replace) None
            (<[table_name p := t]> (w_db w0));
          mkEvent (mkCall df' (table_name p) Append) None
            (<[table_name p := t]> (w_db w0))]
       ∧ w_db (main env p w0).2 = <[table_name p := t]> (w_db w0))
    ∧ w_fs (main env p w0).2 !! last_segment (url p) = None.
Proof.
  intros Hst Hfile Hrows Hp Hd Hcreate Happend.
  pose proof (read_csv_file env _ _ _ _ _ Hfile Hrows) as Hread.
  pose proof (prepared_empty_frame env header Hp Hd) as Hprep.
  exists (empty_frame header), (header_frame header).
  split; [exact Hread|]. split; [done|].
  split; [by apply convert_spec|].
  destruct (staged_frame env p w0 w1 Hst) as [Hdb1 Hsql1].
  destruct (main_on_reader env p w0 w1 _ Hst Hread)
    as (r & w2 & msgs & Hin & Hret & Hfs & Hdb & Hsql & Hlog & Herr).
  cbn [batches] in Hin.
  rewrite ingest_eq, Hprep, Hsql1, Hcreate, Happend in Hin.
  cbn zeta in Hin. rewrite while_true_nil in Hin. injection Hin as <- <-.
  assert (table_rows (header_frame header) = []) as Hnone by done.
  rewrite Hret. split; [done|]. split.
  { rewrite Hlog. simpl. rewrite !errors_app, Herr. simpl.
    by rewrite !app_nil_r. }
  split; [|done]. cbn zeta. split.
  { apply run_events_app. rewrite Hsql. unfold finished. cbn [logged w_sql].
    by rewrite first_appended_sql, Hsql1, Hdb1, Hnone. }
  rewrite Hdb. unfold finished. cbn [logged w_db].
  by rewrite first_appended_db, Hdb1, Hnone.
Qed.

End Written.

(** * The fetcher *)

Section Fetcher.

Variable env : Env.

Lemma world_eq (a b : World) :
  w_fs a = w_fs b → w_db a = w_db b → w_log a = w_log b → w_sql a = w_sql b →
  a = b.
Proof. destruct a, b. simpl. by intros -> -> -> ->. Qed.

Lemma write_content_eq path pieces cut : ∀ w,
  write_content path pieces cut w =
    (match cut with Some e => Raised e | None => Returned tt end,
     written path pieces w).
Proof.
  induction pieces as [|piece pieces IH]; intros w.
  - by destruct cut.
  - simpl. unfold mbind, M_bind, f_write. apply IH.
Qed.

Lemma written_rest path pieces : ∀ w,
  w_db (written path pieces w) = w_db w
  ∧ w_log (written path pieces w) = w_log w
  ∧ w_sql (written path pieces w) = w_sql w.
Proof.
  induction pieces as [|piece pieces IH]; intros w; [done|].
  simpl. by destruct (IH (set_fs (<[path := (default [] (w_fs w !! path)
                                              ++ piece)%list]> (w_fs w)) w))
    as (-> & -> & ->).
Qed.

Lemma written_fs path pieces : ∀ w content,
  w_fs w !! path = Some content →
  w_fs (written path pieces w) =
    <[path := (content ++ concat pieces)%list]> (w_fs w).
Proof.
  induction pieces as [|piece pieces IH]; intros w content Hc.
  - simpl. rewrite app_nil_r. symmetry. by apply insert_id.
  - simpl. rewrite (IH _ (content ++ piece)%list).
    + simpl. by rewrite insert_insert_eq, app_assoc.
    + simpl. rewrite Hc. apply lookup_insert_eq.
Qed.

Lemma written_stored path pieces w :
  written path pieces (set_fs (<[path := []]> (w_fs w)) w) =
    stored path pieces w.
Proof.
  destruct (written_rest path pieces (set_fs (<[path := []]> (w_fs w)) w))
    as (Hdb & Hlog & Hsql).
  apply world_eq; try done.
  rewrite (written_fs path pieces _ []) by apply lookup_insert_eq.
  simpl. by rewrite insert_insert_eq.
Qed.

(** The block under [try] in [download_file], case by case. *)
Lemma fetch_eq u path w :
  fetch env u path w =
    match net env u with
    | Unreachable e => (Raised e, requested u w)
    | Reply status pieces cut =>
        if ((400 <=? status) && (status <? 600))%Z
        then (Raised (HTTPError status), requested u w)
        else match open_error env path with
             | Some e => (Raised e, requested u w)
             | None =>
                 match cut with
                 | Some e => (Raised e, stored path pieces (requested u w))
                 | None =>
                     (Returned tt,
                      logged LInfo ("File downloaded successfully to " ++ path)
                        (stored path pieces (requested u w)))
                 end
             end
    end.
Proof.
  unfold fetch, requests_get, raise_for_status, open_wb, logging_info,
    logging, mbind, M_bind, mret, M_ret, raise. fold (requested u w).
  destruct (net env u) as [e|status pieces cut]; [done|]. simpl.
  destruct ((400 <=? status)%Z && (status <? 600)%Z); [done|].
  destruct (open_error env path); [done|].
  rewrite write_content_eq, written_stored. by destruct cut.
Qed.

(** In the model [download_file] returns exactly when the server answers
    with a status that is no client or server error, the whole body arrives
    and the file can be opened. *)
Lemma download_file_returns_iff u path w w1 :
  download_file env u path w = (Returned tt, w1)
  ↔ ∃ status pieces,
      net env u = Reply status pieces None
      ∧ ¬ error_status status
      ∧ open_error env path = None
      ∧ w1 = logged LInfo ("File downloaded successfully to " ++ path)
               (stored path pieces (requested u w)).
Proof.
  rewrite download_file_eq, fetch_eq. unfold error_status. split.
  - destruct (net env u) as [e|status pieces cut].
    { by destruct (is_Exception e). }
    destruct ((400 <=? status)%Z && (status <? 600)%Z) eqn:Hst; [done|].
    destruct (open_error env path) as [e|] eqn:Hopen;
      [by destruct (is_Exception e)|].
    destruct cut as [e|]; [by destruct (is_Exception e)|].
    intros [= <-]. exists status, pieces. repeat split; try done. lia.
  - intros (status & pieces & -> & Hst & -> & ->).
    by destruct ((400 <=? status)%Z && (status <? 600)%Z) eqn:Hs; [lia|].
Qed.

(** X1. When [download_file] returns, the server has answered with a
    status that is no client or server error and the whole body has
    arrived; the file holds the body and nothing of what it held before,
    and no table and no other file has changed. *)
Theorem returned_download_holds_body u path w w1 :
  download_file env u path w = (Returned tt, w1) →
  ∃ status pieces,
    net env u = Reply status pieces None
    ∧ ¬ error_status status
    ∧ w_fs w1 = <[path := concat pieces]> (w_fs w)
    ∧ w_db w1 = w_db w
    ∧ w_sql w1 = w_sql w.
Proof.
  intros H. apply download_file_returns_iff in H
    as (status & pieces & Hnet & Hst & _ & ->).
  by exists status, pieces.
Qed.

(** When [download_file] raises before the file is opened, no file has
    changed; otherwise the file holds the pieces received. *)
Lemma download_file_raised u path w e w1 :
  download_file env u path w = (Raised e, w1) →
  w_db w1 = w_db w ∧ w_sql w1 = w_sql w
  ∧ (w_fs w1 = w_fs w
     ∨ ∃ status pieces,
         net env u = Reply status pieces (Some e)
         ∧ ¬ error_status status ∧ open_error env path = None
         ∧ w_fs w1 = <[path := concat pieces]> (w_fs w)).
Proof.
  intros H.
  destruct (download_file_frame env u path w _ w1 H) as [Hdb Hsql].
  split; [done|]. split; [done|]. clear Hdb Hsql.
  revert H. rewrite download_file_eq, fetch_eq. unfold error_status.
  destruct (net env u) as [e'|status pieces cut].
  { destruct (is_Exception e'); intros [= <- <-]; by left. }
  destruct ((400 <=? status)%Z && (status <? 600)%Z) eqn:Hst.
  { intros [= <- <-]. by left. }
  destruct (open_error env path) as [e'|] eqn:Hopen.
  { destruct (is_Exception e'); intros [= <- <-]; by left. }
  destruct cut as [e'|]; [|done].
  destruct (is_Exception e'); intros [= <- <-]; right;
    exists status, pieces; repeat split; try done; lia.
Qed.

End Fetcher.

(** * The name of the staging file *)

Section FileName.

Local Open Scope nat_scope.

Lemma last_segment_from_app acc s t :
  last_segment_from acc (s ++ String "/" t) = last_segment_from "" t.
Proof.
  revert acc. induction s as [|a s IH]; intros acc; simpl.
  - reflexivity.
  - by destruct (Ascii.eqb a "/").
Qed.

Lemma append_empty (s : string) : s ++ "" = s.
Proof.
  induction s as [|a s IH]; [done|].
  change (String a (s ++ "") = String a s). by f_equal.
Qed.

Lemma append_snoc (acc : string) a t :
  (acc ++ String a "") ++ t = acc ++ String a t.
Proof.
  induction acc as [|b acc IH]; [done|].
  change (String b ((acc ++ String a "") ++ t) = String b (acc ++ String a t)).
  by f_equal.
Qed.

Lemma last_segment_from_plain acc t :
  "/"%char ∉ String.list_ascii_of_string t →
  last_segment_from acc t = acc ++ t.
Proof.
  revert acc. induction t as [|a t IH]; intros acc Ht; simpl in *.
  - symmetry. apply append_empty.
  - apply not_elem_of_cons in Ht as [Ha Ht].
    destruct (Ascii.eqb_spec a "/") as [->|_]; [done|].
    rewrite IH by done. apply append_snoc.
Qed.

Lemma last_segment_suffix s t :
  "/"%char ∉ String.list_ascii_of_string t →
  last_segment (s ++ String "/" t) = t.
Proof.
  intros Ht. unfold last_segment.
  rewrite last_segment_from_app. by apply last_segment_from_plain.
Qed.

(** X2. The name of the staging file is what follows the last slash of
    the URL: the last segment of [s/t] is [t] when [t] has no slash, as
    [url.split("/")[-1]] gives it. *)
Theorem last_segment_after_slash s t :
  "/"%char ∉ String.list_ascii_of_string t →
  last_segment (s ++ String "/" t) = t.
Proof. apply last_segment_suffix. Qed.

Lemma last_segment_from_no_slash s : ∀ acc,
  "/"%char ∉ String.list_ascii_of_string acc →
  "/"%char ∉ String.list_ascii_of_string (last_segment_from acc s).
Proof.
  induction s as [|a s IH]; intros acc Hacc; simpl; [done|].
  destruct (Ascii.eqb_spec a "/") as [->|Ha].
  - apply IH. simpl. by apply not_elem_of_nil.
  - apply IH. clear IH.
    induction acc as [|b acc IHacc]; simpl in *.
    + apply not_elem_of_cons. split; [done|apply not_elem_of_nil].
    + apply not_elem_of_cons in Hacc as [Hb Hacc].
      apply not_elem_of_cons. split; [done|by apply IHacc].
Qed.

(** X3. The name of the staging file never has a slash in it: the file is
    created in the working directory, whatever the URL. *)
Theorem last_segment_no_slash s :
  "/"%char ∉ String.list_ascii_of_string (last_segment s).
Proof. apply last_segment_from_no_slash. simpl. apply not_elem_of_nil. Qed.

End FileName.

(** * Whole runs *)

Section Runs.

Local Open Scope nat_scope.

Variable env : Env.

Lemma download_file_fs u path w r w1 other :
  download_file env u path w = (r, w1) →
  other ≠ path →
  w_fs w1 !! other = w_fs w !! other.
Proof.
  intros H Hne. destruct r as [[]|e].
  - apply download_file_returns_iff in H
      as (status & pieces & _ & _ & _ & ->).
    simpl. by apply lookup_insert_ne.
  - apply download_file_raised in H
      as (_ & _ & [-> | (status & pieces & _ & _ & _ & ->)]); [done|].
    by apply lookup_insert_ne.
Qed.

(** The three ways a run goes: the download raises, the engine cannot be
    created, or the processing block runs and then the [finally] block. *)
Lemma main_cases p w0 :
  (∃ e w1,
     download_file env (url p) (last_segment (url p)) w0 = (Raised e, w1)
     ∧ main env p w0 =
         (if is_Exception e
          then (Returned tt, logged LError "Exiting due to download error." w1)
          else (Raised e, w1)))
  ∨ (∃ e w1,
       download_file env (url p) (last_segment (url p)) w0 = (Returned tt, w1)
       ∧ engine_fault env (connection_string p) = Some e
       ∧ main env p w0 =
           (if is_Exception e
            then (Returned tt,
                  logged LError
                    ("Failed to connect to database: " ++ exn_str e) w1)
            else (Raised e, w1)))
  ∨ (∃ w1 r w2,
       staged env p w0 w1
       ∧ process env (last_segment (url p)) (table_name p) w1 = (r, w2)
       ∧ (main env p w0).1 =
           match r with
           | Returned _ => Returned tt
           | Raised e => if is_Exception e then Returned tt else Raised e
           end
       ∧ w_fs (main env p w0).2 = delete (last_segment (url p)) (w_fs w2)
       ∧ w_db (main env p w0).2 = w_db w2
       ∧ w_sql (main env p w0).2 = w_sql w2).
Proof.
  destruct (download_file env (url p) (last_segment (url p)) w0)
    as [[[]|e] w1] eqn:Hd.
  - destruct (engine_fault env (connection_string p)) as [e|] eqn:He.
    + right; left. exists e, w1. repeat split; try done.
      by rewrite (main_downloaded env p w0 w1 Hd), He.
    + right; right.
      destruct (process env (last_segment (url p)) (table_name p) w1)
        as [r w2] eqn:Hp.
      destruct (main_after_process env p w0 w1 r w2)
        as (w' & msgs & Hmain & Hfs & Hdb & Hsql & _); [done..|].
      exists w1, r, w2. rewrite Hmain. by repeat split.
  - left. exists e, w1. split; [done|].
    by apply main_download_raised.
Qed.

Lemma chunks_bounded {A} size (l : list A) :
  (0 < size)%N → Forall (λ ch, (nrows ch ≤ size)%N) (chunks size l).
Proof.
  intros Hs. induction l as [|l Hl IH] using (chunks_ind size Hs);
    [constructor|].
  rewrite chunks_cons by done. constructor; [|done].
  rewrite nrows_takeN. lia.
Qed.

(** No batch of a file has more than 100,000 records. *)
Lemma batch_bounded names lines df :
  inr df ∈ batches env names lines → (nrows (df_rows df) ≤ chunksize)%N.
Proof.
  destruct lines as [|first lines]; intros Hin.
  - by apply list_elem_of_singleton in Hin as [= ->].
  - change (batches env names (first :: lines))
      with (frames env names (length first - length names) 0
              (chunks chunksize (first :: lines))) in Hin.
    apply elem_of_frames in Hin as (start & ch & Hch & Hdf).
    symmetry in Hdf. apply frame_of_lines_length in Hdf as [Hlen _].
    pose proof (chunks_bounded chunksize (first :: lines) ltac:(done)) as Hb.
    rewrite Forall_forall in Hb. specialize (Hb ch Hch).
    unfold nrows in *. by rewrite Hlen.
Qed.

(** What the processing block does to the world, whatever it meets. *)
Lemma process_inv csv name w r w2 :
  process env csv name w = (r, w2) →
  w_fs w2 = w_fs w
  ∧ (∀ other, other ≠ name → w_db w2 !! other = w_db w !! other)
  ∧ ∃ evs,
      w_sql w2 = (w_sql w ++ evs)%list
      ∧ create_then_append evs
      ∧ Forall (λ ev, c_table (ev_call ev) = name
                      ∧ (nrows (df_rows (c_frame (ev_call ev))) ≤ chunksize)%N)
          evs.
Proof.
  rewrite process_eq.
  destruct (w_fs w !! csv) as [content|] eqn:Hfile.
  2:{ intros [= <- <-]. split; [done|]. split; [done|]. exists [].
      by rewrite app_nil_r. }
  destruct (csv_rows content) as [|header lines] eqn:Hrows.
  { intros [= <- <-]. split; [done|]. split; [done|]. exists [].
    by rewrite app_nil_r. }
  intros Hin. apply ingest_inv in Hin as [Hfs Hcases]. split; [done|].
  destruct Hcases as [(Hsql & Hdb & _)
                     |[(item & df' & e & _ & _ & _ & Hsql & Hdb)
                      |(item & df' & evs & _ & _ & _ & Hsql & Hbatch & _ & Hdb)]].
  - split; [by rewrite Hdb|]. exists []. by rewrite app_nil_r.
  - split; [by rewrite Hdb|]. eexists. split; [exact Hsql|].
    split; [done|]. constructor; [|done]. split; [done|]. simpl.
    unfold nrows. simpl. lia.
  - split; [intros other Hne; rewrite Hdb; by apply lookup_insert_ne|].
    eexists. split; [exact Hsql|]. split.
    + repeat split; try done.
      eapply Forall_impl; [exact Hbatch|]. by intros ev [? _].
    + constructor; [split; [done|]; unfold nrows; simpl; lia|].
      eapply Forall_impl; [exact Hbatch|].
      intros ev (_ & Hname & df & Hdf & Hconv). split; [done|].
      apply convert_spec, converted_length in Hconv.
      apply batch_bounded in Hdf.
      unfold nrows in *. by rewrite Hconv.
Qed.

(** What a run does to the world, whatever it meets. *)
Lemma main_inv p w0 :
  create_then_append (run_events w0 (main env p w0).2)
  ∧ Forall (λ ev, c_table (ev_call ev) = table_name p
                  ∧ (nrows (df_rows (c_frame (ev_call ev))) ≤ chunksize)%N)
      (run_events w0 (main env p w0).2)
  ∧ (∀ other, other ≠ table_name p →
       w_db (main env p w0).2 !! other = w_db w0 !! other)
  ∧ (∀ other, other ≠ last_segment (url p) →
       w_fs (main env p w0).2 !! other = w_fs w0 !! other).
Proof.
  destruct (main_cases p w0)
    as [(e & w1 & Hd & Hmain)
       |[(e & w1 & Hd & _ & Hmain)
        |(w1 & r & w2 & Hst & Hp & _ & Hfs & Hdb & Hsql)]].
  - destruct (download_file_frame env _ _ _ _ _ Hd) as [Hdb Hsql].
    assert (w_db (main env p w0).2 = w_db w0
            ∧ w_sql (main env p w0).2 = w_sql w0
            ∧ w_fs (main env p w0).2 = w_fs w1) as (-> & Hs & ->)
      by (rewrite Hmain; by destruct (is_Exception e)).
    rewrite run_events_same by done. repeat split; try done.
    intros other Hne. by eapply download_file_fs.
  - destruct (download_file_frame env _ _ _ _ _ Hd) as [Hdb Hsql].
    assert (w_db (main env p w0).2 = w_db w0
            ∧ w_sql (main env p w0).2 = w_sql w0
            ∧ w_fs (main env p w0).2 = w_fs w1) as (-> & Hs & ->)
      by (rewrite Hmain; by destruct (is_Exception e)).
    rewrite run_events_same by done. repeat split; try done.
    intros other Hne. by eapply download_file_fs.
  - destruct (staged_frame env p w0 w1 Hst) as [Hdb1 Hsql1].
    destruct Hst as [Hd _].
    apply process_inv in Hp as (Hfs2 & Hother & evs & Hsql2 & Hshape & Hall).
    rewrite (run_events_app w0 _ evs) by (by rewrite Hsql, Hsql2, Hsql1).
    rewrite Hdb, Hfs, Hfs2. repeat split; try done.
    + intros other Hne. rewrite Hother by done. by rewrite Hdb1.
    + intros other Hne. rewrite lookup_delete_ne by done.
      by eapply download_file_fs.
Qed.

(** X4. Whatever happens, a run leaves every table but the target table
    as it was. *)
Theorem other_tables_untouched p w0 other :
  other ≠ table_name p →
  w_db (main env p w0).2 !! other = w_db w0 !! other.
Proof. apply main_inv. Qed.

(** X5. Whatever happens, a run leaves every file but the staging file as
    it was. *)
Theorem other_files_untouched p w0 other :
  other ≠ last_segment (url p) →
  w_fs (main env p w0).2 !! other = w_fs w0 !! other.
Proof. apply main_inv. Qed.

(** X6. Whatever happens, the calls of a run to the database are at most
    one [replace], which comes first and carries no record, followed by
    appends; all of them name the target table. *)
Theorem replace_comes_first_and_once p w0 :
  create_then_append (run_events w0 (main env p w0).2)
  ∧ Forall (λ ev, c_table (ev_call ev) = table_name p)
      (run_events w0 (main env p w0).2).
Proof.
  destruct (main_inv p w0) as (Hshape & Hall & _).
  split; [done|]. eapply Forall_impl; [exact Hall|]. by intros ev [? _].
Qed.

(** X7. No call of a run writes more than 100,000 records. *)
Theorem batches_bounded p w0 :
  Forall (λ ev, (nrows (df_rows (c_frame (ev_call ev))) ≤ 100000)%N)
    (run_events w0 (main env p w0).2).
Proof.
  destruct (main_inv p w0) as (_ & Hall & _).
  eapply Forall_impl; [exact Hall|]. by intros ev [_ ?].
Qed.

End Runs.

(** * The paths of a run *)

Section Paths.

Local Open Scope nat_scope.

Variable env : Env.

(** A download that goes through and an engine that is created bring the
    run to the processing block, with the body in the file. *)
Lemma staged_by_download p w0 status pieces :
  net env (url p) = Reply status pieces None →
  ¬ error_status status →
  open_error env (last_segment (url p)) = None →
  engine_fault env (connection_string p) = None →
  staged env p w0
    (logged LInfo
       ("File downloaded successfully to " ++ last_segment (url p))
       (stored (last_segment (url p)) pieces (requested (url p) w0))).
Proof.
  intros Hnet Hst Hpath Heng. split; [|done].
  apply download_file_returns_iff. by exists status, pieces.
Qed.

(** X8. A URL that ends with a slash gives the empty file name: the
    download raises, at the latest when the file is opened, whatever the
    server answers; no file and no table is touched. *)
Theorem trailing_slash_fails_download p w0 s :
  url p = s ++ "/" →
  last_segment (url p) = ""
  ∧ (∃ e w1,
       download_file env (url p) (last_segment (url p)) w0 = (Raised e, w1))
  ∧ w_fs (main env p w0).2 = w_fs w0
  ∧ w_db (main env p w0).2 = w_db w0
  ∧ run_events w0 (main env p w0).2 = [].
Proof.
  intros Hurl.
  assert (last_segment (url p) = "") as Hname.
  { rewrite Hurl. apply (last_segment_suffix s ""). simpl.
    apply not_elem_of_nil. }
  split; [done|].
  assert (∃ e w1,
            download_file env (url p) (last_segment (url p)) w0 = (Raised e, w1)
            ∧ w_fs w1 = w_fs w0) as (e & w1 & Hd & Hfs).
  { rewrite download_file_eq, fetch_eq, Hname.
    destruct (net env (url p)) as [e|status pieces cut].
    - destruct (is_Exception e); by eexists _, _.
    - destruct ((400 <=? status)%Z && (status <? 600)%Z); by eexists _, _. }
  split; [by exists e, w1|].
  destruct (download_file_frame env _ _ _ _ _ Hd) as [Hdb Hsql].
  rewrite (main_download_raised env p w0 e w1 Hd).
  destruct (is_Exception e); simpl; repeat split; try done;
    by apply run_events_same.
Qed.

(** X9. When the server cannot be reached or answers with a client or
    server error status, the run creates no file and changes none: a file
    that has the name of the staging file is kept as it was. *)
Theorem failed_request_touches_no_file p w0 :
  match net env (url p) with
  | Unreachable _ => True
  | Reply status _ _ => error_status status
  end →
  w_fs (main env p w0).2 = w_fs w0.
Proof.
  intros Hnet.
  assert (∃ e w1,
            download_file env (url p) (last_segment (url p)) w0 = (Raised e, w1)
            ∧ w_fs w1 = w_fs w0) as (e & w1 & Hd & Hfs).
  { rewrite download_file_eq, fetch_eq. unfold error_status in Hnet.
    destruct (net env (url p)) as [e|status pieces cut].
    - destruct (is_Exception e); by eexists _, _.
    - destruct ((400 <=? status)%Z && (status <? 600)%Z) eqn:Hst; [|lia].
      by eexists _, _. }
  rewrite (main_download_raised env p w0 e w1 Hd).
  by destruct (is_Exception e).
Qed.

(** X10. When the file is opened and the body then breaks off, the run
    ends without a call to the database and leaves the staging file behind,
    holding the pieces that were handed out before the exception, in place
    of what it held before. *)
Theorem broken_download_keeps_pieces p w0 status pieces e :
  net env (url p) = Reply status pieces (Some e) →
  ¬ error_status status →
  open_error env (last_segment (url p)) = None →
  (main env p w0).1 = (if is_Exception e then Returned tt else Raised e)
  ∧ w_fs (main env p w0).2 =
      <[last_segment (url p) := concat pieces]> (w_fs w0)
  ∧ w_db (main env p w0).2 = w_db w0
  ∧ run_events w0 (main env p w0).2 = [].
Proof.
  intros Hnet Hst Hpath.
  assert (∃ w1,
            download_file env (url p) (last_segment (url p)) w0 = (Raised e, w1)
            ∧ w_fs w1 = <[last_segment (url p) := concat pieces]> (w_fs w0))
    as (w1 & Hd & Hfs).
  { rewrite download_file_eq, fetch_eq, Hnet, Hpath.
    unfold error_status in Hst.
    destruct ((400 <=? status)%Z && (status <? 600)%Z) eqn:Hs; [lia|].
    destruct (is_Exception e); by eexists. }
  destruct (download_file_frame env _ _ _ _ _ Hd) as [Hdb Hsql].
  rewrite (main_download_raised env p w0 e w1 Hd).
  destruct (is_Exception e); simpl; repeat split; try done;
    by apply run_events_same.
Qed.

(** X11. When [download_file] returns and the engine cannot be created,
    the run ends without a call to the database and leaves the staging
    file behind, holding the whole body that the server sent. *)
Theorem connection_error_keeps_body p w0 w1 e :
  download_file env (url p) (last_segment (url p)) w0 = (Returned tt, w1) →
  engine_fault env (connection_string p) = Some e →
  (main env p w0).1 = (if is_Exception e then Returned tt else Raised e)
  ∧ (∃ status pieces,
       net env (url p) = Reply status pieces None
       ∧ w_fs (main env p w0).2 =
           <[last_segment (url p) := concat pieces]> (w_fs w0))
  ∧ w_db (main env p w0).2 = w_db w0
  ∧ run_events w0 (main env p w0).2 = [].
Proof.
  intros Hd Heng.
  rewrite (main_downloaded env p w0 _ Hd), Heng.
  destruct (download_file_frame env _ _ _ _ _ Hd) as [Hdb Hsql].
  apply download_file_returns_iff in Hd
    as (status & pieces & Hnet & _ & _ & ->).
  destruct (is_Exception e); simpl; repeat split; try done;
    try (by apply run_events_same); by exists status, pieces.
Qed.

(** X12. An exception of the processing block that is not derived from
    [Exception], such as a [KeyboardInterrupt], is not caught and logs no
    error: it leaves the entry point, but the [finally] block still deletes
    the staging file. *)
Theorem interrupt_still_cleans_up p w0 w1 e w2 :
  staged env p w0 w1 →
  process env (last_segment (url p)) (table_name p) w1 = (Raised e, w2) →
  is_Exception e = false →
  (main env p w0).1 = Raised e
  ∧ w_fs (main env p w0).2 !! last_segment (url p) = None
  ∧ w_db (main env p w0).2 = w_db w2
  ∧ errors (w_log (main env p w0).2) = errors (w_log w2).
Proof.
  intros Hst Hp He.
  destruct (main_after_process env p w0 w1 _ w2 Hst Hp)
    as (w' & msgs & Hmain & Hfs & Hdb & _ & Hlog & Herr).
  rewrite Hmain, He in *. simpl. repeat split; try done.
  - rewrite Hfs. apply lookup_delete_eq.
  - rewrite Hlog. simpl. by rewrite errors_app, Herr, app_nil_r.
Qed.

(** X13. When the first batch cannot be read or converted, the run issues
    no call to the database: a table left by an earlier run is kept as it
    was; the staging file is deleted. *)
Theorem unconvertible_first_batch_keeps_table p w0 w1 item rest e :
  staged env p w0 w1 →
  read_csv env (last_segment (url p)) w1 = (Returned (item :: rest), w1) →
  prepared env item = inl e →
  (main env p w0).1 = (if is_Exception e then Returned tt else Raised e)
  ∧ run_events w0 (main env p w0).2 = []
  ∧ w_db (main env p w0).2 = w_db w0
  ∧ w_fs (main env p w0).2 !! last_segment (url p) = None.
Proof.
  intros Hst Hread Hitem.
  destruct (main_on_reader env p w0 w1 _ Hst Hread)
    as (r & w2 & msgs & Hin & Hret & Hfs & Hdb & Hsql & _).
  destruct (staged_frame env p w0 w1 Hst) as [Hdb1 Hsql1].
  rewrite ingest_eq, Hitem in Hin. injection Hin as <- <-.
  rewrite Hret, Hdb. repeat split; try done.
  apply run_events_same. by rewrite Hsql.
Qed.

(** X14. When the body is empty, so that the file has no header,
    [read_csv] raises: the error is logged, no call reaches the database
    and the staging file is deleted. *)
Theorem empty_file_takes_error_path p w0 w1 :
  staged env p w0 w1 →
  w_fs w1 !! last_segment (url p) = Some [] →
  (main env p w0).1 = Returned tt
  ∧ (LError, "Error processing data: " ++ exn_str EmptyDataError)
      ∈ w_log (main env p w0).2
  ∧ run_events w0 (main env p w0).2 = []
  ∧ w_db (main env p w0).2 = w_db w0
  ∧ w_fs (main env p w0).2 !! last_segment (url p) = None.
Proof.
  intros Hst Hfile.
  destruct (main_after_process env p w0 w1 (Raised EmptyDataError) w1 Hst)
    as (w' & msgs & Hmain & Hfs & Hdb & Hsql & Hlog & _).
  { by rewrite process_eq, Hfile. }
  destruct (staged_frame env p w0 w1 Hst) as [Hdb1 Hsql1].
  rewrite Hmain. simpl. repeat split; try done.
  - rewrite Hlog. apply elem_of_app. right. by left.
  - apply run_events_same. by rewrite Hsql.
  - by rewrite Hdb.
  - rewrite Hfs. apply lookup_delete_eq.
Qed.

End Paths.

(** * Runs that load the file *)

Section Success.

Local Open Scope nat_scope.

Variable env : Env.

Lemma column_dtype_absent c (cols : list (string * dtype)) :
  c ∉ cols.*1 → column_dtype c cols = None.
Proof.
  induction cols as [|[n t] cols IH]; intros Hc; [done|].
  simpl in Hc. apply not_elem_of_cons in Hc as [Hne Hc]. simpl.
  destruct (decide (n = c)); [congruence|by apply IH].
Qed.

Lemma column_dtype_retyped_None c c' cols :
  column_dtype c cols = None → column_dtype c (retyped c' cols) = None.
Proof.
  induction cols as [|[n t] cols IH]; [done|]. simpl.
  destruct (decide (n = c)) as [->|Hne]; [done|]. intros H.
  destruct (decide (n = c')); simpl; destruct (decide (n = c)); try done;
    by apply IH.
Qed.

Lemma typed_columns_names (names : list string) : ∀ type_at,
  (typed_columns type_at names).*1 = names.
Proof.
  unfold typed_columns.
  induction names as [|n names IH]; intros type_at; [done|].
  rewrite imap_cons. simpl. f_equal. apply (IH (type_at ∘ S)).
Qed.

Lemma plain_columns_names (t : dtype) (names : list string) :
  ((λ n, (n, t)) <$> names).*1 = names.
Proof. induction names as [|n names IH]; [done|]. simpl. by f_equal. Qed.

(** A batch that lacks one of the two date-time columns is not converted. *)
Lemma convert_missing_column df :
  pickup ∉ (df_columns df).*1 ∨ dropoff ∉ (df_columns df).*1 →
  ∃ e, convert env df = inl e.
Proof.
  intros Hmiss. unfold convert.
  destruct (assign_datetime env pickup df) as [e|df1] eqn:H1; [by eauto|].
  apply assign_datetime_spec in H1 as H1'. destruct H1' as [Hc _].
  destruct Hmiss as [Hp|Hd].
  - exfalso. revert H1. unfold assign_datetime, get_column.
    by rewrite column_dtype_absent.
  - unfold assign_datetime, get_column. rewrite Hc.
    rewrite column_dtype_retyped_None by (by apply column_dtype_absent).
    by eauto.
Qed.

(** The reader of a file always has a first batch. *)
Lemma batches_first names lines :
  ∃ item rest, batches env names lines = item :: rest.
Proof.
  destruct lines as [|first lines]; [by eexists _, _|].
  change (batches env names (first :: lines))
    with (frames env names (length first - length names) 0
            (chunks chunksize (first :: lines))).
  rewrite chunks_cons by done. by eexists _, _.
Qed.

(** The batches of a file whose header lacks one of the two date-time
    columns are not converted. *)
Lemma prepared_missing_column names lines item :
  pickup ∉ names ∨ dropoff ∉ names →
  item ∈ batches env names lines →
  ∃ e, prepared env item = inl e.
Proof.
  intros Hmiss Hin. destruct item as [e|df]; [by exists e|]. simpl.
  apply convert_missing_column.
  destruct lines as [|first lines].
  - apply list_elem_of_singleton in Hin as [= ->]. simpl.
    by rewrite plain_columns_names.
  - change (batches env names (first :: lines))
      with (frames env names (length first - length names) 0
              (chunks chunksize (first :: lines))) in Hin.
    apply elem_of_frames in Hin as (start & ch & _ & Hdf).
    unfold frame_of_lines in Hdf. destruct (existsb _ _); [done|].
    injection Hdf as ->. simpl. by rewrite typed_columns_names.
Qed.

(** A run whose first batch is not read or converted. *)
Lemma first_batch_raises p w0 w1 item rest e :
  staged env p w0 w1 →
  read_csv env (last_segment (url p)) w1 = (Returned (item :: rest), w1) →
  prepared env item = inl e →
  (main env p w0).1 = (if is_Exception e then Returned tt else Raised e)
  ∧ run_events w0 (main env p w0).2 = []
  ∧ w_db (main env p w0).2 = w_db w0
  ∧ w_fs (main env p w0).2 !! last_segment (url p) = None
  ∧ (is_Exception e = true →
     (LError, "Error processing data: " ++ exn_str e)
       ∈ w_log (main env p w0).2).
Proof.
  intros Hst Hread Hitem.
  destruct (main_on_reader env p w0 w1 _ Hst Hread)
    as (r & w2 & msgs & Hin & Hret & Hfs & Hdb & Hsql & Hlog & _).
  destruct (staged_frame env p w0 w1 Hst) as [Hdb1 Hsql1].
  rewrite ingest_eq, Hitem in Hin. injection Hin as <- <-.
  rewrite Hret, Hdb. repeat split; try done.
  - apply run_events_same. by rewrite Hsql.
  - intros He. rewrite Hlog, He. apply elem_of_app. right. by left.
Qed.

(** X15. When the header lacks one of the two date-time columns, the run
    logs an error for the first batch and returns; it issues no call to
    the database, so that a table left by an earlier run is kept as it
    was, and it deletes the staging file. *)
Theorem missing_datetime_column_keeps_table p w0 w1 content header lines :
  staged env p w0 w1 →
  w_fs w1 !! last_segment (url p) = Some content →
  csv_rows content = header :: lines →
  pickup ∉ header ∨ dropoff ∉ header →
  (main env p w0).1 = Returned tt
  ∧ (∃ e, (LError, "Error processing data: " ++ exn_str e)
            ∈ w_log (main env p w0).2)
  ∧ run_events w0 (main env p w0).2 = []
  ∧ w_db (main env p w0).2 = w_db w0
  ∧ w_fs (main env p w0).2 !! last_segment (url p) = None.
Proof.
  intros Hst Hfile Hrows Hmiss.
  pose proof (read_csv_file env _ _ _ _ _ Hfile Hrows) as Hread.
  destruct (batches_first header lines) as (item & rest & Hits).
  destruct (prepared_missing_column header lines item Hmiss) as [e He].
  { rewrite Hits. by left. }
  destruct (prepared_batch_exception env header lines item e) as [Hexn _];
    [rewrite Hits; by left|done|].
  rewrite Hits in Hread.
  destruct (first_batch_raises p w0 w1 item rest e Hst Hread He)
    as (Hret & Hev & Hdb & Hfs & Hlog).
  rewrite Hexn in Hret. repeat split; try done. exists e. by apply Hlog.
Qed.

Lemma ingest_goods_eq name g g' gs gs' rest w :
  prepared env g = inr g' →
  Forall2 (λ item df', prepared env item = inr df') gs gs' →
  (∀ j, j ≤ S (length gs) → sql_fault env (length (w_sql w) + j) = None) →
  ingest env name (g :: gs ++ rest) w =
    while_true env name rest (appends name gs' (first_appended name g' w)).
Proof.
  intros Hg Hgs Hok. rewrite ingest_eq, Hg.
  assert (sql_fault env (length (w_sql w)) = None) as ->
    by (rewrite <- (Nat.add_0_r (length _)); apply Hok; lia).
  assert (sql_fault env (S (length (w_sql w))) = None) as ->
    by (rewrite <- Nat.add_1_r; apply Hok; lia).
  cbn zeta. apply while_true_goods; [done|].
  intros j Hj. rewrite first_appended_sql, length_app. simpl.
  replace (length (w_sql w) + 2 + j) with (length (w_sql w) + (2 + j)) by lia.
  apply Hok. lia.
Qed.

(** The [finally] block when the file is there. *)
Lemma cleanup_present csv w :
  is_Some (w_fs w !! csv) →
  cleanup csv w =
    (Returned tt,
     logged LInfo ("Temporary file " ++ csv ++ " deleted.")
       (set_fs (delete csv (w_fs w)) w)).
Proof.
  intros H. unfold cleanup, os_path_exists, os_remove, logging_info, logging,
    mbind, M_bind.
  by rewrite bool_decide_eq_true_2.
Qed.

(** The world at the end of a run in which every batch gets through. *)
Lemma loaded_run p w0 w1 g gs g' gs' :
  staged env p w0 w1 →
  read_csv env (last_segment (url p)) w1 = (Returned (g :: gs), w1) →
  prepared env g = inr g' →
  Forall2 (λ item df', prepared env item = inr df') gs gs' →
  (∀ k, sql_fault env k = None) →
  main env p w0 =
    (Returned tt,
     logged LInfo ("Temporary file " ++ last_segment (url p) ++ " deleted.")
       (set_fs (delete (last_segment (url p)) (w_fs w1))
          (finished
             (appends (table_name p) gs'
                (first_appended (table_name p) g' w1))))).
Proof.
  intros Hst Hread Hg Hgs Hsql.
  rewrite (main_staged env p w0 _ Hst).
  unfold try_finally, try_except.
  rewrite (process_reader env _ _ _ _ Hread), <- (app_nil_r gs).
  rewrite (ingest_goods_eq (table_name p) g g' gs gs' [] _ Hg Hgs)
    by (intros; apply Hsql).
  rewrite while_true_nil.
  destruct (appends_events (table_name p) gs'
              (first_appended (table_name p) g' w1))
    as (evs & _ & _ & _ & _ & Hfs & _).
  destruct (read_csv_returned env _ _ _ _ Hread)
    as (content & header & lines & Hfile & _).
  rewrite cleanup_present; simpl; rewrite Hfs; simpl; [done|by eexists].
Qed.

End Success.

Section Loaded.

Local Open Scope nat_scope.

Variable env : Env.

Lemma valid_reader header lines :
  valid_csv env header lines →
  ∃ g gs g' gs',
    batches env header lines = g :: gs
    ∧ prepared env g = inr g'
    ∧ Forall2 (λ item df', prepared env item = inr df') gs gs'.
Proof.
  intros Hvalid.
  destruct (valid_csv_prepared env header lines Hvalid) as (g' & gs' & Hall).
  inversion Hall as [|g ? gs ? Hg Hgs Hits]; subst.
  by exists g, gs, g', gs'.
Qed.

Lemma loaded_db name g' gs' w :
  w_db (appends name gs' (first_appended name g' w)) =
    <[name := {| t_columns := table_columns g';
                 t_rows := concat (table_rows <$> g' :: gs') |}]> (w_db w).
Proof.
  erewrite appends_db
    by (rewrite first_appended_db; apply lookup_insert_eq).
  rewrite first_appended_db. simpl. by rewrite insert_insert_eq.
Qed.






(** The world in which the processing block starts, after a download that
    goes through. *)
Lemma downloaded_file p w0 pieces :
  w_fs (logged LInfo
          ("File downloaded successfully to " ++ last_segment (url p))
          (stored (last_segment (url p)) pieces (requested (url p) w0)))
    !! last_segment (url p) = Some (concat pieces).
Proof. simpl. apply lookup_insert_eq. Qed.

(** X16. Running the script a second time on the same valid file gives
    the table of the first run again: the second run replaces the records
    of the first and adds nothing to them; the staging file is gone after
    each run. *)
Theorem rerun_gives_same_table p w0 status pieces header lines :
  net env (url p) = Reply status pieces None →
  ¬ error_status status →
  open_error env (last_segment (url p)) = None →
  engine_fault env (connection_string p) = None →
  csv_rows (concat pieces) = header :: lines →
  valid_csv env header lines →
  (∀ k, sql_fault env k = None) →
  (main env p (main env p w0).2).1 = Returned tt
  ∧ w_db (main env p (main env p w0).2).2 = w_db (main env p w0).2
  ∧ w_fs (main env p (main env p w0).2).2 = w_fs (main env p w0).2
  ∧ w_fs (main env p w0).2 = delete (last_segment (url p)) (w_fs w0).
Proof.
  intros Hnet Hst Hpath Heng Hbody Hvalid Hsql.
  destruct (valid_reader header lines Hvalid)
    as (g & gs & g' & gs' & Hits & Hg & Hgs).
  assert (∀ w,
    main env p w =
      (Returned tt,
       logged LInfo ("Temporary file " ++ last_segment (url p) ++ " deleted.")
         (set_fs (delete (last_segment (url p)) (w_fs w))
            (finished
               (appends (table_name p) gs'
                  (first_appended (table_name p) g'
                     (logged LInfo
                        ("File downloaded successfully to "
                         ++ last_segment (url p))
                        (stored (last_segment (url p)) pieces
                           (requested (url p) w))))))))) as Hrun.
  { intros w.
    rewrite (loaded_run env p w _ g gs g' gs'
               (staged_by_download env p w status pieces Hnet Hst Hpath Heng));
      try done.
    - simpl. by rewrite delete_insert_eq.
    - rewrite <- Hits. apply read_csv_file with (concat pieces); [|done].
      apply downloaded_file. }
  rewrite !Hrun. simpl. repeat (rewrite loaded_db; simpl).
  repeat split; try done.
  - by rewrite insert_insert_eq.
  - by rewrite delete_delete_eq.
Qed.



End Loaded.

(** * Calls that the database refuses, and the log of a failed download *)

Section Refusals.

Local Open Scope nat_scope.

Variable env : Env.

(** X19. When the database refuses the creation of the table, the run
    ends after that one call: the error is logged, a table left by an
    earlier run is kept as it was, and the staging file is deleted. *)
Theorem refused_creation_keeps_table p w0 w1 item rest df' e :
  staged env p w0 w1 →
  read_csv env (last_segment (url p)) w1 = (Returned (item :: rest), w1) →
  prepared env item = inr df' →
  sql_fault env (length (w_sql w0)) = Some e →
  (main env p w0).1 = (if is_Exception e then Returned tt else Raised e)
  ∧ run_events w0 (main env p w0).2 =
      [mkEvent (mkCall (head0 df') (table_name p) Replace) (Some e) (w_db w0)]
  ∧ w_db (main env p w0).2 = w_db w0
  ∧ w_fs (main env p w0).2 !! last_segment (url p) = None.
Proof.
  intros Hst Hread Hitem Hfault.
  destruct (main_on_reader env p w0 w1 _ Hst Hread)
    as (r & w2 & msgs & Hin & Hret & Hfs & Hdb & Hsql & _).
  destruct (staged_frame env p w0 w1 Hst) as [Hdb1 Hsql1].
  rewrite ingest_eq, Hitem, Hsql1, Hfault in Hin.
  injection Hin as <- <-.
  rewrite Hret, Hdb. simpl. repeat split; try done.
  - apply run_events_app. rewrite Hsql. simpl. by rewrite Hsql1, Hdb1.
Qed.

(** X20. When the database creates the table and then refuses the append
    of the first batch, the records that an earlier run left are lost: the
    table has the columns of the first batch and no record. *)
Theorem refused_first_append_empties_table p w0 w1 item rest df' e :
  staged env p w0 w1 →
  read_csv env (last_segment (url p)) w1 = (Returned (item :: rest), w1) →
  prepared env item = inr df' →
  sql_fault env (length (w_sql w0)) = None →
  sql_fault env (S (length (w_sql w0))) = Some e →
  (main env p w0).1 = (if is_Exception e then Returned tt else Raised e)
  ∧ w_db (main env p w0).2 !! table_name p =
      Some {| t_columns := table_columns df'; t_rows := [] |}
  ∧ length (run_events w0 (main env p w0).2) = 2
  ∧ w_fs (main env p w0).2 !! last_segment (url p) = None.
Proof.
  intros Hst Hread Hitem Hcreate Hfault.
  destruct (main_on_reader env p w0 w1 _ Hst Hread)
    as (r & w2 & msgs & Hin & Hret & Hfs & Hdb & Hsql & _).
  destruct (staged_frame env p w0 w1 Hst) as [Hdb1 Hsql1].
  rewrite ingest_eq, Hitem, Hsql1, Hcreate, Hfault in Hin.
  injection Hin as <- <-.
  rewrite Hret, Hdb. simpl. repeat split; try done.
  - apply lookup_insert_eq.
  - unfold run_events. rewrite Hsql. simpl.
    rewrite Hsql1, <- app_assoc, drop_app_length. done.
Qed.

(** X21. The log of a run whose download raises: the announcement of the
    request, then, if the exception is derived from [Exception], the two
    error lines of the fetcher and of the entry point, and nothing else. *)
Theorem failed_download_log p w0 e w1 :
  download_file env (url p) (last_segment (url p)) w0 = (Raised e, w1) →
  w_log (main env p w0).2 =
    (w_log w0
     ++ (LInfo, ("Downloading file from " ++ url p)%string)
        :: (if is_Exception e
            then [(LError, ("Failed to download file: " ++ exn_str e)%string);
                  (LError, "Exiting due to download error.")]
            else []))%list.
Proof.
  intros Hd. rewrite (main_download_raised env p w0 e w1 Hd).
  revert Hd. rewrite download_file_eq, fetch_eq.
  destruct (net env (url p)) as [e'|status pieces cut].
  { destruct (is_Exception e') eqn:He; intros [= <- <-]; rewrite He; simpl;
      by rewrite <- ?app_assoc. }
  destruct ((400 <=? status)%Z && (status <? 600)%Z).
  { intros [= <- <-]. simpl. by rewrite <- !app_assoc. }
  destruct (open_error env (last_segment (url p))) as [e'|].
  { destruct (is_Exception e') eqn:He; intros [= <- <-]; rewrite He; simpl;
      by rewrite <- ?app_assoc. }
  destruct cut as [e'|]; [|done].
  destruct (is_Exception e') eqn:He; intros [= <- <-]; rewrite He; simpl;
    by rewrite <- ?app_assoc.
Qed.

End Refusals.

(** * Sample runs *)

Lemma ex_staged_ok : staged ex_env ex_params ex_world ex_staged.
Proof. split; [by vm_compute|reflexivity]. Defined.

Lemma ex_read_ok :
  read_csv ex_env (last_segment (url ex_params)) ex_staged
  = (Returned [inr ex_frame], ex_staged).
Proof. by vm_compute. Defined.

Lemma ex_convert_ok : convert ex_env ex_frame = inr ex_frame'.
Proof. by vm_compute. Defined.

Lemma ex_status_ok : ¬ error_status 200.
Proof. unfold error_status. lia. Defined.

Lemma ex_valid : valid_csv ex_env ex_header ex_lines.
Proof.
  split; [by apply (bool_decide_unpack _)|].
  split; [by apply (bool_decide_unpack _)|].
  repeat constructor; vm_compute; by eexists.
Defined.

(** The sample run from beginning to end. *)
Example sample_run :
  let w' := (main ex_env ex_params ex_world).2 in
  (main ex_env ex_params ex_world).1 = Returned tt
  ∧ w_db w' !! "trips" = Some (table_of ex_frame')
  ∧ w_fs w' !! "trips.csv" = None
  ∧ w_log w' =
      [(LInfo, "Downloading file from https://example.org/data/trips.csv");
       (LInfo, "File downloaded successfully to trips.csv");
       (LInfo, "Table trips created successfully.");
       (LInfo, "First chunk inserted successfully.");
       (LInfo, "Finished ingesting data into the PostgreSQL database");
       (LInfo, "Temporary file trips.csv deleted.")].
Proof. by vm_compute. Qed.

(** The table of the sample run: the numbers of the records are stored
    with them. *)
Example sample_table :
  table_of ex_frame' =
    {| t_columns :=
         [("index", Int64); ("VendorID", Int64); (pickup, Datetime64);
          (dropoff, Datetime64)];
       t_rows :=
         [{["index" := CInt 0; "VendorID" := CText "1";
            pickup := CStamp 1609459200000000000;
            dropoff := CStamp 1609459800000000000]};
          {["index" := CInt 1; "VendorID" := CText "2"; pickup := CNaT;
            dropoff := CStamp 1609459800000000000]}] |}.
Proof. by vm_compute. Qed.

(** Blank lines change nothing: the run on the sample file with blank
    lines in it gives the table of the sample run. *)
Example blank_lines_are_skipped :
  w_db (main ex_env_blank ex_params ex_world).2
  = w_db (main ex_env ex_params ex_world).2.
Proof. by vm_compute. Qed.

(** When the lines have a field more than the header, the first field of
    each line is stored as its label. *)
Example surplus_field_is_label :
  w_db (main ex_env_labelled ex_params ex_world).2 !! "trips" =
    Some {| t_columns :=
              [("index", Object); ("VendorID", Int64); (pickup, Datetime64);
               (dropoff, Datetime64)];
            t_rows :=
              [{["index" := CText "a"; "VendorID" := CText "1";
                 pickup := CStamp 1609459200000000000;
                 dropoff := CStamp 1609459800000000000]};
               {["index" := CText "b"; "VendorID" := CText "2"; pickup := CNaT;
                 dropoff := CStamp 1609459800000000000]}] |}.
Proof. by vm_compute. Qed.

(** The database refuses the append of the first batch: the table that the
    earlier run left is replaced by one without records, and the file is
    deleted. *)
Example refused_first_append :
  let w' := (main ex_env_refused ex_params ex_world).2 in
  w_db w' !! "trips" = Some (table_of (head0 ex_frame'))
  ∧ w_fs w' !! "trips.csv" = None
  ∧ errors (w_log w') = [(LError, "Error processing data: database error")].
Proof. by vm_compute. Qed.

(** The body breaks off during the download: the entry point returns
    before the block whose [finally] removes the file, and the part that
    was written stays. *)
Example failed_download_keeps_partial_file :
  (main ex_env_cut ex_params ex_world).1 = Returned tt
  ∧ w_fs (main ex_env_cut ex_params ex_world).2 !! "trips.csv"
    = Some [ex_header].
Proof. by vm_compute. Qed.

(** A URL that ends with the name of a directory: the file cannot be
    opened, and the run ends with the download error. *)
Example directory_name_fails_download :
  (main ex_env ex_params_dot ex_world).1 = Returned tt
  ∧ w_fs (main ex_env ex_params_dot ex_world).2 = w_fs ex_world
  ∧ w_log (main ex_env ex_params_dot ex_world).2 =
      [(LInfo, "Downloading file from https://example.org/data/.");
       (LError, "Failed to download file: OS error");
       (LError, "Exiting due to download error.")].
Proof. by vm_compute. Qed.

(** The exit status of a run that an interrupt of the user ends. *)
Example interrupted_exit_status :
  exit_status (main ex_env_interrupt_sql ex_params ex_world).1 = 130%Z.
Proof. by vm_compute. Qed.

Section SampleFacts.

Local Open Scope nat_scope.

Variable env : Env.

Lemma csv_rows_id content :
  Forall (λ fields, blank fields = false) content → csv_rows content = content.
Proof.
  induction 1 as [|fields content Hf _ IH]; [done|].
  unfold csv_rows. rewrite filter_cons_True by done. f_equal. exact IH.
Qed.

Lemma batches_head names lines first :
  head lines = Some first →
  batches env names lines =
    frames env names (length first - length names) 0 (chunks chunksize lines).
Proof. destruct lines as [|l lines]; [done|]. by intros [= ->]. Qed.

Lemma batch_lines_chunks (lines : list Line) :
  lines ≠ [] → batch_lines lines = chunks chunksize lines.
Proof. by destruct lines. Qed.

Lemma head_replicate_app {A} n (x : A) l :
  (0 < n)%N → head (replicate (N.to_nat n) x ++ l) = Some x.
Proof. intros Hn. destruct (N.to_nat n) eqn:Hk; [lia|done]. Qed.

(** The batches of 100,000 lines followed by one more line. *)
Lemma chunks_full_and_one (line last : Line) :
  chunks chunksize (replicate (N.to_nat chunksize) line ++ [last])
  = [replicate (N.to_nat chunksize) line; [last]].
Proof.
  rewrite chunks_cons;
    [|done|intros H; by apply app_eq_nil in H as [_ ?]].
  rewrite takeN_take, dropN_drop.
  rewrite take_app_length' by (by rewrite length_replicate).
  rewrite drop_app_length' by (by rewrite length_replicate).
  reflexivity.
Qed.

Lemma nrows_full_batch (line : Line) :
  nrows (replicate (N.to_nat chunksize) line) = chunksize.
Proof. unfold nrows. by rewrite length_replicate, N2Nat.id. Qed.

End SampleFacts.

Lemma ex_full_rows :
  csv_rows (concat [[ex_header]; ex_full]) = ex_header :: ex_full.
Proof.
  change (concat [[ex_header]; ex_full])
    with (ex_header :: (ex_full ++ []))%list.
  rewrite app_nil_r. apply csv_rows_id. constructor; [done|].
  apply Forall_app. split; [by apply Forall_replicate|by repeat constructor].
Defined.

Lemma ex_full_valid : valid_csv ex_env_full ex_header ex_full.
Proof.
  split; [by apply (bool_decide_unpack _)|].
  split; [by apply (bool_decide_unpack _)|].
  assert (valid_line ex_env_full ex_header ex_line) as Hline.
  { split; [by vm_compute|]. split; by vm_compute; eexists. }
  apply Forall_app. split; [by apply Forall_replicate|by repeat constructor].
Defined.

Lemma ex_full_staged :
  staged ex_env_full ex_params ex_world
    (logged LInfo
       ("File downloaded successfully to " ++ last_segment (url ex_params))
       (stored (last_segment (url ex_params)) [[ex_header]; ex_full]
          (requested (url ex_params) ex_world))).
Proof.
  exact (staged_by_download ex_env_full ex_params ex_world 200
           [[ex_header]; ex_full] eq_refl ex_status_ok eq_refl eq_refl).
Defined.

Lemma ex_full_no_error :
  errors (w_log (main ex_env_full ex_params ex_world).2) = [].
Proof.
  destruct (valid_run_logs_no_error ex_env_full ex_params ex_world _ _
              ex_header ex_full ex_full_staged
              (downloaded_file ex_params ex_world [[ex_header]; ex_full])
              ex_full_rows ex_full_valid (λ _, eq_refl)) as [_ Herr].
  rewrite Herr. reflexivity.
Defined.

Lemma every_line_loaded_witness :
  let w' := (main ex_env_full ex_params ex_world).2 in
  errors (w_log w') = []
  ∧ (λ df, nrows (df_rows df)) <$> appended (run_events ex_world w')
    = [100000; 1]%N
  ∧ ∃ t, w_db w' !! "trips" = Some t ∧ nrows (t_rows t) = 100001%N.
Proof.
  split; [exact ex_full_no_error|].
  destruct (every_line_loaded ex_env_full ex_params ex_world _ _ ex_header
              ex_full ex_full_staged
              (downloaded_file ex_params ex_world [[ex_header]; ex_full])
              ex_full_rows (λ _, eq_refl) ex_full_no_error)
    as (_ & (t & Ht & Hn) & _ & Hsizes & _).
  split.
  - rewrite Hsizes, batch_lines_chunks
      by (intros H; by apply app_eq_nil in H as [_ ?]).
    unfold ex_full. rewrite chunks_full_and_one. cbn [fmap list_fmap].
    assert (nrows (replicate (N.to_nat chunksize) ex_line) = 100000%N) as ->
      by apply nrows_full_batch.
    reflexivity.
  - exists t. split; [exact Ht|]. rewrite Hn. unfold nrows, ex_full.
    by rewrite length_app, length_replicate, Nat2N.inj_add, N2Nat.id.
Defined.

(** A file with a header and no line is loaded by one batch-append call,
    not by none. *)
Lemma header_only_run_appends_once :
  let w' := (main ex_env_header_only ex_params ex_world).2 in
  let calls := appended (run_events ex_world w') in
  (main ex_env_header_only ex_params ex_world).1 = Returned tt
  ∧ errors (w_log w') = []
  ∧ ev_fault <$> run_events ex_world w' = [None; None]
  ∧ nrows calls = 1%N
  ∧ nrows calls ≠ ((0 + chunksize - 1) `div` chunksize)%N.
Proof. by vm_compute. Qed.

Lemma first_batch_replaces_table_witness :
  ∃ evs,
    Forall (λ ev, c_mode (ev_call ev) = Append) evs
    ∧ w_db (main ex_env ex_params ex_world).2 !! "trips" =
        Some {| t_columns := table_columns ex_frame';
                t_rows := concat (table_rows <$> appended evs) |}.
Proof.
  destruct (first_batch_replaces_table ex_env ex_params ex_world ex_staged
              (inr ex_frame) [] ex_frame'
              ex_staged_ok ex_read_ok ex_convert_ok eq_refl)
    as (tables & evs & _ & _ & _ & Happ & Hdb).
  by exists evs.
Defined.

Lemma schema_fixed_by_first_batch_witness :
  t_columns <$> (w_db (main ex_env ex_params ex_world).2 !! "trips")
  = Some [("index", Int64); ("VendorID", Int64); (pickup, Datetime64);
          (dropoff, Datetime64)].
Proof.
  destruct (schema_fixed_by_first_batch ex_env ex_params ex_world ex_staged
              ex_frame [] ex_frame'
              ex_staged_ok ex_read_ok ex_convert_ok eq_refl)
    as (_ & _ & _ & Hcols).
  exact Hcols.
Defined.

(** After the sample run the table has a column that the first batch has
    not: the one of the numbers of the records. *)
Lemma sample_table_has_index_column :
  let w' := (main ex_env ex_params ex_world).2 in
  (main ex_env ex_params ex_world).1 = Returned tt
  ∧ errors (w_log w') = []
  ∧ convert ex_env ex_frame = inr ex_frame'
  ∧ t_columns <$> (w_db w' !! "trips")
    ≠ Some (retyped dropoff (retyped pickup (df_columns ex_frame))).
Proof. by vm_compute. Qed.

Lemma only_datetime_fields_converted_witness :
  ∃ dfs,
    batches ex_env_full ex_header ex_full = inr <$> dfs
    ∧ length dfs = 2%nat
    ∧ Forall2 (converted ex_env_full) dfs
        (appended
           (run_events ex_world (main ex_env_full ex_params ex_world).2)).
Proof.
  destruct (only_datetime_fields_converted ex_env_full ex_params ex_world _
              (batches ex_env_full ex_header ex_full) ex_full_staged
              (read_csv_file ex_env_full _ _ _ _ _
                 (downloaded_file ex_params ex_world [[ex_header]; ex_full])
                 ex_full_rows))
    as [_ Hall].
  destruct (Hall (λ _, eq_refl) ex_full_no_error) as (dfs & Hits & Hconv).
  exists dfs. split; [exact Hits|]. split; [|exact Hconv].
  apply (f_equal length) in Hits. rewrite length_fmap in Hits.
  rewrite <- Hits.
  rewrite (batches_head ex_env_full ex_header ex_full ex_line)
    by (by apply head_replicate_app).
  rewrite length_frames. unfold ex_full.
  by rewrite chunks_full_and_one.
Defined.

Lemma exhausted_reader_ends_loop_witness :
  ∃ w',
    while_true ex_env "trips" [inr ex_frame; inr ex_frame] ex_staged
      = (Returned tt, w')
    ∧ appended (run_events ex_staged w') = [ex_frame'; ex_frame'].
Proof.
  destruct (exhausted_reader_ends_loop ex_env "trips"
              [inr ex_frame; inr ex_frame] [ex_frame'; ex_frame'] ex_staged)
    as (w' & Hrun & Happ & _).
  - repeat constructor; exact ex_convert_ok.
  - intros j _. reflexivity.
  - by exists w'.
Defined.

Lemma download_failure_leaves_database_witness :
  download_fails ex_env_404 (url ex_params)
  ∧ w_db (main ex_env_404 ex_params ex_world).2 = w_db ex_world.
Proof.
  assert (download_fails ex_env_404 (url ex_params)) as Hfail
    by (left; split; [by vm_compute|reflexivity]).
  split; [exact Hfail|].
  by destruct (download_failure_leaves_database ex_env_404 ex_params ex_world
                 Hfail) as (e & w1 & _ & _ & _ & Hdb).
Defined.

Lemma failures_exit_zero_witness :
  exit_status (main ex_env_no_engine ex_params ex_world).1 = 0%Z.
Proof.
  refine (proj1 (proj2 (failures_exit_zero ex_env_no_engine ex_params ex_world
            ArgumentError _ (connection_error _ _ _ ArgumentError ex_staged _ _)
            eq_refl))).
  - by vm_compute.
  - reflexivity.
Defined.

Lemma header_only_creates_empty_table_witness :
  (main ex_env_header_only ex_params ex_world).1 = Returned tt
  ∧ errors (w_log (main ex_env_header_only ex_params ex_world).2) = []
  ∧ w_db (main ex_env_header_only ex_params ex_world).2 !! "trips" =
      Some {| t_columns :=
                [("index", Int64); ("VendorID", Object); (pickup, Datetime64);
                 (dropoff, Datetime64)];
              t_rows := [] |}.
Proof.
  destruct (header_only_creates_empty_table ex_env_header_only ex_params
              ex_world ex_staged_header_only [ex_header] ex_header)
    as (df & df' & Hread & _ & Hconv & Hret & Herr & (_ & Hdb) & _).
  - split; [by vm_compute|reflexivity].
  - by vm_compute.
  - by vm_compute.
  - by apply (bool_decide_unpack _).
  - by apply (bool_decide_unpack _).
  - reflexivity.
  - reflexivity.
  - split; [exact Hret|]. split; [rewrite Herr; by vm_compute|].
    rewrite Hdb, lookup_insert_eq. f_equal. f_equal.
    assert (df = empty_frame ex_header) as ->.
    { assert (read_csv ex_env_header_only (last_segment (url ex_params))
                ex_staged_header_only
              = (Returned [inr (empty_frame ex_header)], ex_staged_header_only))
        as Hread' by (by vm_compute).
      congruence. }
    rewrite (table_columns_converted ex_env_header_only _ _ Hconv).
    by vm_compute.
Defined.

(** A file with a header and no line: the run logs no error and replaces
    the table that an earlier run left. *)
Lemma header_only_run_replaces_table :
  let w' := (main ex_env_header_only ex_params ex_world).2 in
  csv_rows [ex_header] = [ex_header]
  ∧ (main ex_env_header_only ex_params ex_world).1 = Returned tt
  ∧ errors (w_log w') = []
  ∧ length (run_events ex_world w') = 2%nat
  ∧ w_db w' !! "trips" ≠ w_db ex_world !! "trips".
Proof. by vm_compute. Qed.

Lemma failed_batch_leaves_partial_load_witness :
  ∃ df',
    appended
      (run_events ex_world (main ex_env_two_batches ex_params ex_world).2)
    = [df']
    ∧ nrows (df_rows df') = 100000%N
    ∧ w_db (main ex_env_two_batches ex_params ex_world).2 !! "trips" =
        Some {| t_columns := table_columns df';
                t_rows := concat (table_rows <$> [df']) |}
    ∧ w_fs (main ex_env_two_batches ex_params ex_world).2 !! "trips.csv"
      = None.
Proof.
  destruct (prepared_valid ex_env_two_batches ex_header 0
              (replicate (N.to_nat chunksize) ex_line)) as [df' Hdf'].
  { right. left. }
  { right. right. left. }
  { apply Forall_replicate. split; [by vm_compute|].
    split; by vm_compute; eexists. }
  exists df'.
  assert (csv_rows (concat [[ex_header]; ex_two_batches])
          = ex_header :: ex_two_batches) as Hrows.
  { change (concat [[ex_header]; ex_two_batches])
      with (ex_header :: (ex_two_batches ++ []))%list.
    rewrite app_nil_r. apply csv_rows_id. constructor; [done|].
    apply Forall_app. split; [by apply Forall_replicate|by repeat constructor]. }
  pose proof (read_csv_file ex_env_two_batches _ _ _ _ _
                (downloaded_file ex_params ex_world
                   [[ex_header]; ex_two_batches]) Hrows) as Hread.
  rewrite (batches_head ex_env_two_batches ex_header ex_two_batches ex_line)
    in Hread by (by apply head_replicate_app).
  unfold ex_two_batches in Hread. rewrite chunks_full_and_one in Hread.
  cbn [frames] in Hread.
  destruct (failed_batch_leaves_partial_load ex_env_two_batches ex_params
              ex_world _ [_] [df'] _ [] ParserError
              (staged_by_download ex_env_two_batches ex_params ex_world 200
                 [[ex_header]; ex_two_batches] eq_refl ex_status_ok eq_refl
                 eq_refl)
              Hread)
    as (Happ & _ & Hdb & Hfs).
  - split; [|intros _ j _; reflexivity].
    constructor; [exact Hdf'|constructor].
  - left. by vm_compute.
  - split; [exact Happ|]. split; [|split; [by apply Hdb|exact Hfs]].
    apply prepared_lines_length in Hdf' as [Hlen _].
    unfold nrows. by rewrite Hlen, length_replicate, N2Nat.id.
Defined.

(** * More sample runs *)

Lemma ex_rows_ok :
  csv_rows (concat [[ex_header]; ex_lines]) = ex_header :: ex_lines.
Proof. by vm_compute. Defined.


Lemma returned_download_holds_body_witness :
  ∃ status pieces,
    net ex_env (url ex_params) = Reply status pieces None
    ∧ w_fs ex_staged = <["trips.csv" := concat pieces]> (w_fs ex_world).
Proof.
  destruct (returned_download_holds_body ex_env (url ex_params) "trips.csv"
              ex_world ex_staged)
    as (status & pieces & Hnet & _ & Hfs & _); [by vm_compute|].
  by exists status, pieces.
Defined.

Lemma last_segment_after_slash_witness :
  last_segment "https://example.org/data/trips.csv" = "trips.csv".
Proof.
  apply (last_segment_after_slash "https://example.org/data" "trips.csv").
  by apply (bool_decide_unpack _).
Defined.

Lemma trailing_slash_fails_download_witness :
  last_segment (url ex_params_slash) = ""
  ∧ w_fs (main ex_env ex_params_slash ex_world).2 = w_fs ex_world.
Proof.
  destruct (trailing_slash_fails_download ex_env ex_params_slash ex_world
              "https://example.org/data" eq_refl)
    as (Hname & _ & Hfs & _).
  by split.
Defined.

Lemma failed_request_touches_no_file_witness :
  w_fs (main ex_env_404 ex_params ex_world_busy).2 = w_fs ex_world_busy.
Proof.
  apply (failed_request_touches_no_file ex_env_404 ex_params ex_world_busy).
  simpl. unfold error_status. lia.
Defined.

Lemma broken_download_keeps_pieces_witness :
  w_fs (main ex_env_cut ex_params ex_world_busy).2
  = <["trips.csv" := [ex_header]]> (w_fs ex_world_busy).
Proof.
  destruct (broken_download_keeps_pieces ex_env_cut ex_params ex_world_busy
              200 [[ex_header]] RequestException eq_refl ex_status_ok
              eq_refl)
    as (_ & Hfs & _).
  exact Hfs.
Defined.

Lemma connection_error_keeps_body_witness :
  (main ex_env_no_engine ex_params ex_world).1 = Returned tt
  ∧ ∃ pieces,
      w_fs (main ex_env_no_engine ex_params ex_world).2
      = <["trips.csv" := concat pieces]> (w_fs ex_world).
Proof.
  destruct (connection_error_keeps_body ex_env_no_engine ex_params ex_world
              ex_staged ArgumentError)
    as (Hret & (status & pieces & _ & Hfs) & _).
  - by vm_compute.
  - reflexivity.
  - split; [exact Hret|]. by exists pieces.
Defined.

Lemma other_tables_untouched_witness :
  w_db (main ex_env ex_params ex_world_busy).2 !! "zones" = Some ex_old_table.
Proof.
  by rewrite (other_tables_untouched ex_env ex_params ex_world_busy "zones").
Defined.

Lemma other_files_untouched_witness :
  w_fs (main ex_env ex_params ex_world_busy).2 !! "notes.txt"
  = Some [["keep"]].
Proof.
  rewrite (other_files_untouched ex_env ex_params ex_world_busy "notes.txt");
    [done|by vm_compute].
Defined.

Lemma interrupt_still_cleans_up_witness :
  (main ex_env_interrupt_sql ex_params ex_world).1 = Raised KeyboardInterrupt
  ∧ w_fs (main ex_env_interrupt_sql ex_params ex_world).2 !! "trips.csv"
    = None.
Proof.
  destruct (interrupt_still_cleans_up ex_env_interrupt_sql ex_params ex_world
              ex_staged KeyboardInterrupt
              (process ex_env_interrupt_sql (last_segment (url ex_params))
                 (table_name ex_params) ex_staged).2)
    as (Hret & Hfs & _).
  - split; [by vm_compute|reflexivity].
  - rewrite (surjective_pairing (process _ _ _ _)) at 1. f_equal.
  - reflexivity.
  - by split.
Defined.

Lemma unconvertible_first_batch_keeps_table_witness :
  w_db (main ex_env_bad_date ex_params ex_world).2 = w_db ex_world.
Proof.
  destruct (unconvertible_first_batch_keeps_table ex_env_bad_date ex_params
              ex_world _
              (frame_of_lines ex_env_bad_date ex_header 0 0
                 [["1"; "yesterday"; ""]]) []
              ValueError
              (staged_by_download ex_env_bad_date ex_params ex_world 200 _
                 eq_refl ex_status_ok eq_refl eq_refl))
    as (_ & _ & Hdb & _); [by vm_compute..|exact Hdb].
Defined.

Lemma missing_datetime_column_keeps_table_witness :
  (main ex_env_no_pickup ex_params ex_world).1 = Returned tt
  ∧ w_db (main ex_env_no_pickup ex_params ex_world).2 = w_db ex_world.
Proof.
  destruct (missing_datetime_column_keeps_table ex_env_no_pickup ex_params
              ex_world _ _ ["VendorID"; dropoff]
              [["1"; "2021-01-01 00:10:00"]]
              (staged_by_download ex_env_no_pickup ex_params ex_world 200 _
                 eq_refl ex_status_ok eq_refl eq_refl)
              (downloaded_file ex_params ex_world _))
    as (Hret & _ & _ & Hdb & _).
  - by vm_compute.
  - left. by apply (bool_decide_unpack _).
  - by split.
Defined.

Lemma empty_file_takes_error_path_witness :
  (main ex_env_empty_body ex_params ex_world).1 = Returned tt
  ∧ w_db (main ex_env_empty_body ex_params ex_world).2 = w_db ex_world.
Proof.
  destruct (empty_file_takes_error_path ex_env_empty_body ex_params ex_world _
              (staged_by_download ex_env_empty_body ex_params ex_world 200 _
                 eq_refl ex_status_ok eq_refl eq_refl))
    as (Hret & _ & _ & Hdb & _).
  - by vm_compute.
  - by split.
Defined.

Lemma rerun_gives_same_table_witness :
  w_db (main ex_env ex_params (main ex_env ex_params ex_world).2).2
  = w_db (main ex_env ex_params ex_world).2.
Proof.
  destruct (rerun_gives_same_table ex_env ex_params ex_world 200
              [[ex_header]; ex_lines] ex_header ex_lines eq_refl ex_status_ok
              eq_refl eq_refl ex_rows_ok ex_valid (λ _, eq_refl))
    as (_ & Hdb & _).
  exact Hdb.
Defined.



Lemma refused_creation_keeps_table_witness :
  w_db (main ex_env_refused_create ex_params ex_world).2 = w_db ex_world.
Proof.
  destruct (refused_creation_keeps_table ex_env_refused_create ex_params
              ex_world ex_staged (inr ex_frame) [] ex_frame' DBAPIError)
    as (_ & _ & Hdb & _); [by vm_compute..|exact Hdb].
Defined.

Lemma refused_first_append_empties_table_witness :
  w_db (main ex_env_refused ex_params ex_world).2 !! "trips"
  = Some {| t_columns := table_columns ex_frame'; t_rows := [] |}.
Proof.
  destruct (refused_first_append_empties_table ex_env_refused ex_params
              ex_world ex_staged (inr ex_frame) [] ex_frame' DBAPIError)
    as (_ & Hdb & _); [by vm_compute..|exact Hdb].
Defined.

Lemma failed_download_log_witness :
  w_log (main ex_env_404 ex_params ex_world).2 =
    [(LInfo, "Downloading file from https://example.org/data/trips.csv");
     (LError, "Failed to download file: HTTP error");
     (LError, "Exiting due to download error.")].
Proof.
  rewrite (failed_download_log ex_env_404 ex_params ex_world (HTTPError 404)
             (download_file ex_env_404 (url ex_params)
                (last_segment (url ex_params)) ex_world).2).
  - reflexivity.
  - rewrite (surjective_pairing (download_file _ _ _ _)) at 1. f_equal.
Defined.
